(** * Notibag: notification store, service, broadcaster and protocol handler

    A shallow embedding of the Go server of notibag (the second part of
    [src/backend/cmd/send.go], package [main] of the server): the
    in-memory repository, the service on top of it, the WebSocket manager
    and the per-frame handler, with the properties of the specification
    stated and settled over these definitions.

    Conventions.
    - Go strings are [string] (byte sequences); [error] is the message
      handed to [errors.New] or [fmt.Errorf], [None] being [nil].
    - The repository's slice is a [list Notification], head first.
    - [time.Now()] is an input: every function that reads the clock takes
      its readings as arguments, in the order the code reads them.
    - A [*websocket.Conn] is a connection identity ([Conn]); whether a
      write on it succeeds is decided by the peer and enters as an oracle.
    - The [clients] map of the manager only ever stores [true], so it is a
      finite set of connections ([gset Conn]). *)

From Stdlib Require Import ZArith Lia Ascii String List.
From stdpp Require Import base decidable list strings gmap.

Local Open Scope string_scope.
Local Open Scope Z_scope.

#[local] Arguments String.append : simpl nomatch.

(** ** Package [time]: the part of [Time.Format] that [generateID] uses *)

Module GoTime.

(** A clock reading as [Format] presents it: the calendar fields of the
    instant in the reading's location. *)
Record Time := mkTime {
  Year : Z;
  Month : Z;
  Day : Z;
  Hour : Z;
  Minute : Z;
  Second : Z;
  Nanosecond : Z
}.

Definition digit (d : Z) : ascii := ascii_of_nat (48 + Z.to_nat d).

(** [utoa]: decimal digits of a non-negative number, most significant
    first; the fuel bounds the number of digits. *)
Fixpoint utoa (fuel : nat) (u : Z) (acc : string) : string :=
  match fuel with
  | O => acc
  | S f =>
      let acc' := String (digit (u mod 10)) acc in
      if u <? 10 then acc' else utoa f (u / 10) acc'
  end.

Fixpoint zeros (n : nat) : string :=
  match n with
  | O => ""
  | S k => String "0" (zeros k)
  end.

(** [appendInt x width]: a sign for a negative [x], then the decimal
    digits of its magnitude, zero-padded on the left up to [width]. The
    two short cuts of the library for widths 2 and 4 are kept. *)
Definition appendInt (x : Z) (width : nat) : string :=
  let u := Z.abs x in
  let sign := if x <? 0 then "-" else "" in
  if (Nat.eqb width 2 && (u <? 100))%bool then
    sign ++ String (digit (u / 10)) (String (digit (u mod 10)) "")
  else if (Nat.eqb width 4 && (u <? 10000))%bool then
    sign ++ String (digit (u / 100 / 10)) (String (digit (u / 100 mod 10))
           (String (digit (u mod 100 / 10)) (String (digit (u mod 100 mod 10)) "")))
  else
    let ds := utoa (S (Z.to_nat (Z.log2 u))) u "" in
    sign ++ zeros (width - String.length ds) ++ ds.

(** The layout elements made of digits, and the fractional second. *)
Inductive stdChunk :=
  | stdLongYear | stdYear
  | stdNumMonth | stdZeroMonth
  | stdDay | stdZeroDay | stdZeroYearDay
  | stdHour | stdHour12 | stdZeroHour12
  | stdMinute | stdZeroMinute
  | stdSecond | stdZeroSecond
  | stdFracSecond0 (sep : ascii) (n : nat)
  | stdFracSecond9 (sep : ascii) (n : nat).

Definition isDigit (c : ascii) : bool :=
  (Nat.leb 48 (nat_of_ascii c) && Nat.leb (nat_of_ascii c) 57)%bool.

(** Length of the run of [ch] at the head of [l], and whether the
    character after the run is a digit. *)
Fixpoint run (ch : ascii) (l : string) : nat * bool :=
  match l with
  | EmptyString => (O, false)
  | String c rest =>
      if Ascii.eqb c ch then
        let '(n, d) := run ch rest in (S n, d)
      else (O, isDigit c)
  end.

(** [chunkAt l]: the layout element that starts at the head of [l] with
    the number of layout characters it takes, or [None] when the head is
    literal text. This is the per-character case analysis of
    [nextStdChunk] for the heads [0]-[5], [.] and [,]. Heads that start a
    month or weekday name, an AM/PM mark, a zone or an underscore-padded
    element are outside this model; no layout of this program has one. *)
Definition chunkAt (l : string) : option (stdChunk * nat) :=
  match l with
  | EmptyString => None
  | String c rest =>
      if Ascii.eqb c "0" then
        match rest with
        | String d rest' =>
            if Ascii.eqb d "1" then Some (stdZeroMonth, 2%nat)
            else if Ascii.eqb d "2" then Some (stdZeroDay, 2%nat)
            else if Ascii.eqb d "3" then Some (stdZeroHour12, 2%nat)
            else if Ascii.eqb d "4" then Some (stdZeroMinute, 2%nat)
            else if Ascii.eqb d "5" then Some (stdZeroSecond, 2%nat)
            else if Ascii.eqb d "6" then Some (stdYear, 2%nat)
            else if String.prefix "002" l then Some (stdZeroYearDay, 3%nat)
            else None
        | EmptyString => None
        end
      else if Ascii.eqb c "1" then
        if String.prefix "15" l then Some (stdHour, 2%nat)
        else Some (stdNumMonth, 1%nat)
      else if Ascii.eqb c "2" then
        if String.prefix "2006" l then Some (stdLongYear, 4%nat)
        else Some (stdDay, 1%nat)
      else if Ascii.eqb c "3" then Some (stdHour12, 1%nat)
      else if Ascii.eqb c "4" then Some (stdMinute, 1%nat)
      else if Ascii.eqb c "5" then Some (stdSecond, 1%nat)
      else if (Ascii.eqb c "." || Ascii.eqb c ",")%bool then
        match rest with
        | String ch _ =>
            if (Ascii.eqb ch "0" || Ascii.eqb ch "9")%bool then
              let '(n, digitAfter) := run ch rest in
              if digitAfter then None
              else if Ascii.eqb ch "0" then Some (stdFracSecond0 c n, S n)
              else Some (stdFracSecond9 c n, S n)
            else None
        | EmptyString => None
        end
      else None
  end.

Definition isLeap (y : Z) : bool :=
  ((y mod 4 =? 0) && (negb (y mod 100 =? 0) || (y mod 400 =? 0)))%bool.

(** Days of the year before the first of month [m]. *)
Definition daysBefore (m : Z) : Z :=
  nth (Z.to_nat (m - 1)) [0; 31; 59; 90; 120; 151; 181; 212; 243; 273; 304; 334] 0.

Definition YearDay (t : Time) : Z :=
  daysBefore (Month t) + Day t
  + (if (isLeap (Year t) && (3 <=? Month t))%bool then 1 else 0).

Fixpoint trimRight (ch : ascii) (s : string) : string :=
  match s with
  | EmptyString => EmptyString
  | String c rest =>
      match trimRight ch rest with
      | EmptyString => if Ascii.eqb c ch then EmptyString else String c EmptyString
      | r => String c r
      end
  end.

Definition appendNano (nanosec : Z) (sep : ascii) (n : nat) (trim : bool) : string :=
  if (trim && (Nat.eqb n 0 || (nanosec =? 0)))%bool then ""
  else
    let b := String sep (String.substring 0 n (appendInt nanosec 9)) in
    if trim then trimRight sep (trimRight "0" b) else b.

Definition appendChunk (t : Time) (std : stdChunk) : string :=
  match std with
  | stdLongYear => appendInt (Year t) 4
  | stdYear => appendInt (Year t mod 100) 2
  | stdNumMonth => appendInt (Month t) 0
  | stdZeroMonth => appendInt (Month t) 2
  | stdDay => appendInt (Day t) 0
  | stdZeroDay => appendInt (Day t) 2
  | stdZeroYearDay => appendInt (YearDay t) 3
  | stdHour => appendInt (Hour t) 2
  | stdHour12 => appendInt (if Hour t mod 12 =? 0 then 12 else Hour t mod 12) 0
  | stdZeroHour12 => appendInt (if Hour t mod 12 =? 0 then 12 else Hour t mod 12) 2
  | stdMinute => appendInt (Minute t) 0
  | stdZeroMinute => appendInt (Minute t) 2
  | stdSecond => appendInt (Second t) 0
  | stdZeroSecond => appendInt (Second t) 2
  | stdFracSecond0 sep n => appendNano (Nanosecond t) sep n false
  | stdFracSecond9 sep n => appendNano (Nanosecond t) sep n true
  end.

(** The formatting loop: at each layout position either the characters
    of the element recognised earlier are still being consumed
    ([skip > 0]), or an element starts here and its text is emitted, or
    the character is copied as it is. *)
Fixpoint formatFrom (t : Time) (skip : nat) (layout : string) : string :=
  match layout with
  | EmptyString => EmptyString
  | String c rest =>
      match skip with
      | S k => formatFrom t k rest
      | O =>
          match chunkAt layout with
          | Some (std, len) => appendChunk t std ++ formatFrom t (len - 1) rest
          | None => String c (formatFrom t O rest)
          end
      end
  end.

Definition Format (t : Time) (layout : string) : string := formatFrom t O layout.

End GoTime.

Import GoTime.

(** ** Domain model *)

(** [nil] is [None]; an error carries the text it was built from. *)
Definition error : Type := option string.

Definition errors_New (text : string) : error := Some text.

Record Notification := mkNotification {
  ID : string;
  Title : string;
  Message : string;
  Timestamp : Time;
  Read : bool
}.

(** [n.Read = true] on a copy of [n]. *)
Definition setRead (n : Notification) : Notification :=
  {| ID := ID n; Title := Title n; Message := Message n;
     Timestamp := Timestamp n; Read := true |}.

Record WSMessage := mkWSMessage {
  Type_ : string;
  Notification_ : option Notification;
  Notifications : list Notification;
  NotificationID : string
}.

(** ** Repository interface and its in-memory implementation *)

(** The methods that change the store return the new store with their
    result. *)
Class NotificationRepository (R : Type) := {
  GetUnread : R -> list Notification;
  GetAll : R -> list Notification;
  Create : Notification -> R -> R * error;
  MarkAsRead : string -> R -> R * error;
  Clear : R -> R * error
}.

Record InMemoryNotificationRepository := mkRepo {
  notifications : list Notification
}.

Module InMemory.

(** The two timestamps are [time.Now().Add(-5 * time.Minute)] and
    [time.Now().Add(-2 * time.Minute)] as evaluated at construction. *)
Definition NewInMemoryNotificationRepository (ts1 ts2 : Time)
  : InMemoryNotificationRepository :=
  {| notifications :=
       [ {| ID := "1";
            Title := "システム起動";
            Message := "Notibagが正常に起動しました";
            Timestamp := ts1;
            Read := false |};
         {| ID := "2";
            Title := "重要な更新";
            Message := "新しいバージョンが利用可能です。アップデートを確認してください。";
            Timestamp := ts2;
            Read := false |} ] |}.

Definition GetUnread (r : InMemoryNotificationRepository) : list Notification :=
  List.filter (fun notification => negb (Read notification)) (notifications r).

Definition GetAll (r : InMemoryNotificationRepository) : list Notification :=
  notifications r.

Definition Create (notification : Notification) (r : InMemoryNotificationRepository)
  : InMemoryNotificationRepository * error :=
  ({| notifications := ([notification] ++ notifications r)%list |}, None).

(** The loop of [MarkAsRead] over the slice: the first element whose
    [ID] is [id] gets [Read = true] and the loop returns [nil]; past the
    end the error is returned and nothing was written. *)
Fixpoint markLoop (id : string) (ns : list Notification)
  : list Notification * error :=
  match ns with
  | [] => ([], errors_New "notification not found")
  | n :: rest =>
      if String.eqb (ID n) id then (setRead n :: rest, None)
      else let '(rest', err) := markLoop id rest in (n :: rest', err)
  end.

Definition MarkAsRead (id : string) (r : InMemoryNotificationRepository)
  : InMemoryNotificationRepository * error :=
  let '(ns, err) := markLoop id (notifications r) in
  ({| notifications := ns |}, err).

Definition Clear (r : InMemoryNotificationRepository)
  : InMemoryNotificationRepository * error :=
  ({| notifications := [] |}, None).

End InMemory.

#[export] Instance InMemory_NotificationRepository
  : NotificationRepository InMemoryNotificationRepository :=
  {| GetUnread := InMemory.GetUnread;
     GetAll := InMemory.GetAll;
     Create := InMemory.Create;
     MarkAsRead := InMemory.MarkAsRead;
     Clear := InMemory.Clear |}.

(** ** Service *)

(** [generateID] reads the clock twice, once per [Format] call. *)
Definition generateID (now1 now2 : Time) : string :=
  Format now1 "20060102150405" ++ "-" ++ Format now2 "000".

Section Service.

Context {R : Type} `{NotificationRepository R}.

Definition GetUnreadNotifications (repo : R) : list Notification :=
  GetUnread repo.

(** [now1] and [now2] are the clock readings of [generateID], [now3] the
    one of the [Timestamp] field. The result is the pointer ([None] for
    [nil]) and the error. *)
Definition CreateNotification (now1 now2 now3 : Time) (title message : string)
  (repo : R) : R * (option Notification * error) :=
  if (String.eqb title "" || String.eqb message "")%bool then
    (repo, (None, errors_New "title and message are required"))
  else
    let notification :=
      {| ID := generateID now1 now2;
         Title := title;
         Message := message;
         Timestamp := now3;
         Read := false |} in
    match Create notification repo with
    | (repo', Some err) => (repo', (None, Some err))
    | (repo', None) => (repo', (Some notification, None))
    end.

Definition MarkNotificationAsRead (id : string) (repo : R) : R * error :=
  if String.eqb id "" then
    (repo, errors_New "notification ID is required")
  else MarkAsRead id repo.

Definition ClearAllNotifications (repo : R) : R * error :=
  Clear repo.

End Service.

(** ** WebSocket manager *)

(** Identity of a [*websocket.Conn]. *)
Definition Conn : Type := nat.

(** What the manager and the handler do to the outside: a [WriteJSON]
    call on a connection with its result, a [Close] call, a log line. *)
Inductive Event :=
  | EvWrite (conn : Conn) (frame : WSMessage) (res : error)
  | EvClose (conn : Conn)
  | EvLog (line : string).

Definition AddClient (conn : Conn) (clients : gset Conn) : gset Conn :=
  {[conn]} ∪ clients.

Definition RemoveClient (conn : Conn) (clients : gset Conn) : gset Conn :=
  clients ∖ {[conn]}.

Section WSManager.

(** The result of [conn.WriteJSON(frame)], decided by the peer and the
    transport. *)
Variable WriteJSON : Conn -> WSMessage -> error.

Context {R : Type} `{NotificationRepository R}.

(** The body of [for client := range w.clients], run over the clients in
    the order [order] in which the map yields them. *)
Fixpoint broadcastLoop (message : WSMessage) (order : list Conn)
  (clients : gset Conn) : gset Conn * list Event :=
  match order with
  | [] => (clients, [])
  | client :: rest =>
      match WriteJSON client message with
      | Some err =>
          let '(clients', evs) :=
            broadcastLoop message rest (clients ∖ {[client]}) in
          (clients',
           EvWrite client message (Some err)
             :: EvLog ("Error broadcasting to client: " ++ err)
             :: EvClose client :: evs)
      | None =>
          let '(clients', evs) := broadcastLoop message rest clients in
          (clients', EvWrite client message None :: evs)
      end
  end.

Definition notificationFrame (notification : Notification) : WSMessage :=
  {| Type_ := "notification";
     Notification_ := Some notification;
     Notifications := [];
     NotificationID := "" |}.

(** [order] is the order in which [range] yields the entries of the map;
    Go leaves it unspecified, so it is an argument. The function has no
    result besides its effects. *)
Definition BroadcastNotification (order : list Conn)
  (notification : Notification) (clients : gset Conn)
  : gset Conn * list Event :=
  broadcastLoop (notificationFrame notification) order clients.

Definition listFrame (ns : list Notification) : WSMessage :=
  {| Type_ := "notifications_list";
     Notification_ := None;
     Notifications := ns;
     NotificationID := "" |}.

Definition HandleMessage (conn : Conn) (msg : WSMessage) (repo : R)
  : R * error * list Event :=
  if String.eqb (Type_ msg) "get_notifications" then
    let notifications := GetUnreadNotifications repo in
    let response := listFrame notifications in
    let res := WriteJSON conn response in
    (repo, res, [EvWrite conn response res])
  else if String.eqb (Type_ msg) "mark_read" then
    if negb (String.eqb (NotificationID msg) "") then
      let '(repo', err) := MarkNotificationAsRead (NotificationID msg) repo in
      (repo', err, [])
    else (repo, errors_New "notification ID is required", [])
  else if String.eqb (Type_ msg) "clear_all" then
    let '(repo', err) := ClearAllNotifications repo in
    (repo', err, [])
  else
    (repo, Some ("unknown message type: " ++ Type_ msg), []).

(** One turn of the read loop of [HandleWebSocket] on a frame that was
    read: the frame is handled and an error is logged. *)
Definition serveFrame (conn : Conn) (msg : WSMessage) (repo : R)
  : R * list Event :=
  let '(repo', err, evs) := HandleMessage conn msg repo in
  (repo',
   (evs ++ match err with
           | Some e => [EvLog ("WebSocket message handling error: " ++ e)]
           | None => []
           end)%list).

Fixpoint readLoop (conn : Conn) (frames : list WSMessage) (repo : R)
  : R * list Event :=
  match frames with
  | [] => (repo, [])
  | msg :: rest =>
      let '(repo1, evs1) := serveFrame conn msg repo in
      let '(repo2, evs2) := readLoop conn rest repo1 in
      (repo2, (evs1 ++ evs2)%list)
  end.

(** [HandleWebSocket] after a successful upgrade: the connection is
    registered, the frames read before the first read error [readErr]
    are served, then the deferred calls run, last registered first. *)
Definition HandleWebSocket (conn : Conn) (frames : list WSMessage)
  (readErr : string) (repo : R) (clients : gset Conn)
  : R * gset Conn * list Event :=
  let clients1 := AddClient conn clients in
  let '(repo', evs) := readLoop conn frames repo in
  (repo', RemoveClient conn clients1,
   EvLog "WebSocket connection established"
     :: (evs ++ [EvLog ("WebSocket read error: " ++ readErr); EvClose conn])%list).

End WSManager.

(** The frames written on the connections, in order. *)
Definition writes (evs : list Event) : list (Conn * WSMessage) :=
  flat_map (fun ev => match ev with
                      | EvWrite c m _ => [(c, m)]
                      | _ => []
                      end) evs.

(** The frames that reached connection [conn]: the writes that
    succeeded. *)
Definition received (conn : Conn) (evs : list Event) : list WSMessage :=
  flat_map (fun ev => match ev with
                      | EvWrite c m None => if Nat.eqb c conn then [m] else []
                      | _ => []
                      end) evs.

(** How many times [conn.Close()] was called. *)
Definition closes (conn : Conn) (evs : list Event) : nat :=
  length (List.filter (fun ev => match ev with
                                 | EvClose c => Nat.eqb c conn
                                 | _ => false
                                 end) evs).

(** The connections on which a write was attempted, in order. *)
Definition attempted (evs : list Event) : list Conn :=
  map fst (writes evs).

(** ** The manager under concurrent callers

    Every caller of the manager is a thread; a state of the system is the
    registry, its [sync.RWMutex] and the threads' program points. A step
    runs one thread up to its next operation on the lock, the map or a
    connection. *)

Module Concurrent.

Record RWMutex := mkMutex {
  writer : bool;
  readers : nat
}.

(** Program points of [AddClient] and [RemoveClient]:
    [Lock(); defer Unlock(); <map update>]. *)
Inductive LockPc := LStart | LHeld | LUpdated | LDone.

(** Program points of [BroadcastNotification]: before [RLock], after it,
    inside [range] with the entries still to be produced, between a
    failed write and the [Close]/[delete] that follow it, after
    [RUnlock]. When [range] starts, the entries to produce are those of
    the map at that moment; an entry deleted before [range] reaches it
    is not produced. *)
Inductive BroadcastPc :=
  | BStart
  | BLocked
  | BRange (todo : list Conn)
  | BFailed (client : Conn) (err : string) (todo : list Conn)
  | BDone.

Inductive Thread :=
  | AddClientT (conn : Conn) (pc : LockPc)
  | RemoveClientT (conn : Conn) (pc : LockPc)
  | BroadcastT (message : WSMessage) (pc : BroadcastPc).

Record State := mkState {
  clients : gset Conn;
  mu : RWMutex;
  threads : list Thread;
  trace : list Event
}.

(** [Lock] waits until there is neither a writer nor a reader, [RLock]
    until there is no writer. *)
Definition canLock (m : RWMutex) : bool :=
  (negb (writer m) && Nat.eqb (readers m) 0)%bool.

Definition canRLock (m : RWMutex) : bool := negb (writer m).

Definition setThread (tid : nat) (th : Thread) (s : State) : State :=
  {| clients := clients s; mu := mu s;
     threads := <[tid := th]> (threads s); trace := trace s |}.

Definition setMu (m : RWMutex) (s : State) : State :=
  {| clients := clients s; mu := m; threads := threads s; trace := trace s |}.

Definition setClients (c : gset Conn) (s : State) : State :=
  {| clients := c; mu := mu s; threads := threads s; trace := trace s |}.

Definition emit (evs : list Event) (s : State) : State :=
  {| clients := clients s; mu := mu s; threads := threads s;
     trace := (trace s ++ evs)%list |}.

(** The steps of a thread that takes the write lock around [update]. *)
Definition stepLocked (tid : nat) (pc : LockPc) (mk : LockPc -> Thread)
  (update : gset Conn -> gset Conn) (s : State) : option State :=
  match pc with
  | LStart =>
      if canLock (mu s)
      then Some (setThread tid (mk LHeld) (setMu (mkMutex true (readers (mu s))) s))
      else None
  | LHeld => Some (setThread tid (mk LUpdated) (setClients (update (clients s)) s))
  | LUpdated =>
      Some (setThread tid (mk LDone) (setMu (mkMutex false (readers (mu s))) s))
  | LDone => None
  end.

Section Step.

Variable WriteJSON : Conn -> WSMessage -> error.

Definition stepBroadcast (tid : nat) (message : WSMessage) (pc : BroadcastPc)
  (s : State) : option State :=
  let at_ pc' := setThread tid (BroadcastT message pc') in
  match pc with
  | BStart =>
      if canRLock (mu s)
      then Some (at_ BLocked (setMu (mkMutex (writer (mu s)) (S (readers (mu s)))) s))
      else None
  | BLocked => Some (at_ (BRange (elements (clients s))) s)
  | BRange [] =>
      Some (at_ BDone (setMu (mkMutex (writer (mu s)) (pred (readers (mu s)))) s))
  | BRange (client :: todo) =>
      if bool_decide (client ∈ clients s) then
        match WriteJSON client message with
        | Some err =>
            Some (at_ (BFailed client err todo)
                    (emit [EvWrite client message (Some err)] s))
        | None =>
            Some (at_ (BRange todo) (emit [EvWrite client message None] s))
        end
      else Some (at_ (BRange todo) s)
  | BFailed client err todo =>
      Some (at_ (BRange todo)
              (setClients (clients s ∖ {[client]})
                 (emit [EvLog ("Error broadcasting to client: " ++ err);
                        EvClose client] s)))
  | BDone => None
  end.

(** One step of thread [tid]; [None] when the thread is blocked or has
    returned. *)
Definition step (tid : nat) (s : State) : option State :=
  match threads s !! tid with
  | None => None
  | Some (AddClientT conn pc) =>
      stepLocked tid pc (AddClientT conn) (AddClient conn) s
  | Some (RemoveClientT conn pc) =>
      stepLocked tid pc (RemoveClientT conn) (RemoveClient conn) s
  | Some (BroadcastT message pc) => stepBroadcast tid message pc s
  end.

(** The states along a schedule, the start state first; the run stops at
    a step that cannot be taken. *)
Fixpoint runs (schedule : list nat) (s : State) : list State :=
  s :: match schedule with
       | [] => []
       | tid :: rest =>
           match step tid s with
           | Some s' => runs rest s'
           | None => []
           end
       end.

(** [n] steps of thread [tid] in a row. *)
Fixpoint stepN (tid : nat) (n : nat) (s : State) : option State :=
  match n with
  | O => Some s
  | S k =>
      match step tid s with
      | Some s' => stepN tid k s'
      | None => None
      end
  end.

(** The states that the threads can bring the system to from [s0]. *)
Inductive reachable (s0 : State) : State -> Prop :=
  | reach_init : reachable s0 s0
  | reach_step s tid s' :
      reachable s0 s -> step tid s = Some s' -> reachable s0 s'.

End Step.

(** Thread [tid] is inside [BroadcastNotification], holding the read
    lock. *)
Definition broadcasting (tid : nat) (s : State) : bool :=
  match threads s !! tid with
  | Some (BroadcastT _ BLocked) | Some (BroadcastT _ (BRange _))
  | Some (BroadcastT _ (BFailed _ _ _)) => true
  | _ => false
  end.

Definition init (clients0 : gset Conn) (ths : list Thread) : State :=
  {| clients := clients0; mu := mkMutex false 0; threads := ths; trace := [] |}.

Definition holdsRead (th : Thread) : bool :=
  match th with
  | BroadcastT _ BLocked | BroadcastT _ (BRange _) | BroadcastT _ (BFailed _ _ _) =>
      true
  | _ => false
  end.

Definition holdsWrite (th : Thread) : bool :=
  match th with
  | AddClientT _ LHeld | AddClientT _ LUpdated
  | RemoveClientT _ LHeld | RemoveClientT _ LUpdated => true
  | _ => false
  end.

Definition count (f : Thread -> bool) (ths : list Thread) : nat :=
  length (List.filter f ths).

(** The lock word agrees with the threads: [readers] counts the
    broadcasts inside their critical section, [writer] is set exactly
    when one updating thread is inside its own, and then no reader is. *)
Definition lockInv (s : State) : Prop :=
  readers (mu s) = count holdsRead (threads s)
  /\ (if writer (mu s)
      then count holdsWrite (threads s) = 1%nat /\ readers (mu s) = 0%nat
      else count holdsWrite (threads s) = 0%nat).

(** No thread has started yet. *)
Definition notStarted (th : Thread) : Prop :=
  match th with
  | AddClientT _ LStart | RemoveClientT _ LStart | BroadcastT _ BStart => True
  | _ => False
  end.

(** The thread runs [AddClient] or [RemoveClient]. *)
Definition isUpdate (th : Thread) : Prop :=
  match th with
  | AddClientT _ _ | RemoveClientT _ _ => True
  | BroadcastT _ _ => False
  end.

End Concurrent.

(** ** Vocabulary of the specification *)

(** The error classes of the specification, by the messages the code
    builds them from. *)
Definition InvalidArgument (e : error) : Prop :=
  e = Some "title and message are required"
  \/ e = Some "notification ID is required".

Definition NotFound (e : error) : Prop :=
  e = Some "notification not found".

(** A clock reading whose calendar fields are in range (years of four
    digits, no leap second). *)
Definition calendarTime (t : Time) : Prop :=
  0 <= Year t < 10000 /\ 1 <= Month t <= 12 /\ 1 <= Day t <= 31
  /\ 0 <= Hour t < 24 /\ 0 <= Minute t < 60 /\ 0 <= Second t < 60
  /\ 0 <= Nanosecond t < 1000000000.

(** Two readings fall in the same calendar second. *)
Definition sameSecond (a b : Time) : Prop :=
  Year a = Year b /\ Month a = Month b /\ Day a = Day b
  /\ Hour a = Hour b /\ Minute a = Minute b /\ Second a = Second b.


Definition isSpace (c : ascii) : bool :=
  let n := nat_of_ascii c in
  (Nat.eqb n 32 || (Nat.leb 9 n && Nat.leb n 13))%bool.

Fixpoint trimLeft (s : string) : string :=
  match s with
  | EmptyString => EmptyString
  | String c rest => if isSpace c then trimLeft rest else s
  end.

Fixpoint trimRightSpace (s : string) : string :=
  match s with
  | EmptyString => EmptyString
  | String c rest =>
      match trimRightSpace rest with
      | EmptyString => if isSpace c then EmptyString else String c EmptyString
      | r => String c r
      end
  end.

(** "Empty after trimming", in the words of the specification: the text
    without its leading and trailing white space. The code has no such
    function. *)
Definition spec_trimmed (s : string) : string := trimRightSpace (trimLeft s).

(** The operations of the store and of the service, as a caller issues
    them one after the other. *)
Inductive Op :=
  | OpInsert (n : Notification)
  | OpStoreMarkRead (id : string)
  | OpStoreClear
  | OpListUnread
  | OpListAll
  | OpCreate (now1 now2 now3 : Time) (title message : string)
  | OpMarkRead (id : string)
  | OpClearAll.

Definition applyOp (op : Op) (r : InMemoryNotificationRepository)
  : InMemoryNotificationRepository :=
  match op with
  | OpInsert n => fst (Create n r)
  | OpStoreMarkRead id => fst (MarkAsRead id r)
  | OpStoreClear => fst (Clear r)
  | OpListUnread => r
  | OpListAll => r
  | OpCreate now1 now2 now3 title message =>
      fst (CreateNotification now1 now2 now3 title message r)
  | OpMarkRead id => fst (MarkNotificationAsRead id r)
  | OpClearAll => fst (ClearAllNotifications r)
  end.

Definition runOps (ops : list Op) (r : InMemoryNotificationRepository)
  : InMemoryNotificationRepository :=
  fold_left (fun r op => applyOp op r) ops r.

Definition isClear (op : Op) : bool :=
  match op with
  | OpStoreClear | OpClearAll => true
  | _ => false
  end.

(** [b] is the record [a] at a later time: the same fields, and a read
    flag that has not gone back. *)
Definition evolves (a b : Notification) : Prop :=
  ID b = ID a /\ Title b = Title a /\ Message b = Message a
  /\ Timestamp b = Timestamp a /\ (Read a = true -> Read b = true).

Definition isLog (ev : Event) : Prop :=
  match ev with
  | EvLog _ => True
  | _ => False
  end.

(** [r'] holds the records of [r], possibly further along in their
    life, behind the records inserted since. *)
Definition grows (r r' : InMemoryNotificationRepository) : Prop :=
  exists new old',
    notifications r' = (new ++ old')%list
    /\ Forall2 evolves (notifications r) old'.

(** Linear arithmetic with quotients and remainders by constants. *)
Ltac divmod := Z.div_mod_to_equations; lia.

(** The record [y] lies behind a record of the same identifier. *)
Definition shadowed (y : Notification) (back : list Notification)
  (r : InMemoryNotificationRepository) : Prop :=
  exists front back',
    notifications r = (front ++ y :: back')%list
    /\ Exists (fun n => ID n = ID y) front
    /\ length back' = length back.

(** What the read loop of connection [conn] may do to the outside: write
    on [conn] and log; it closes nothing. *)
Definition ownEvent (conn : Conn) (ev : Event) : Prop :=
  match ev with
  | EvWrite c _ _ => c = conn
  | EvLog _ => True
  | EvClose _ => False
  end.

(** ** HTTP handlers *)

(** The server's [CreateNotificationRequest], as [ShouldBindJSON] fills
    it. *)
Record CreateNotificationRequest := mkRequest {
  reqTitle : string;
  reqMessage : string
}.

(** What a handler hands to [c.JSON]: the health object, a notification,
    a [NotificationsResponse], a [SuccessResponse], an [ErrorResponse];
    [NoBody] is the answer of gin's recovery to a panic. *)
Inductive Body :=
  | JSONHealth
  | JSONNotification (n : Notification)
  | JSONNotifications (ns : list Notification)
  | JSONSuccess (success : bool)
  | JSONError (err : string)
  | NoBody.

Record Response := mkResponse {
  Status : nat;
  body : Body
}.

Module NotificationHandler.

Section Handlers.

Variable WriteJSON : Conn -> WSMessage -> error.

Context {R : Type} `{NotificationRepository R}.

Definition HealthCheck : Response := mkResponse 200 JSONHealth.

(** [bound] is the outcome of [c.ShouldBindJSON(&req)]: the request, or
    the text of the binding error. The clock readings and the order of
    the map are those of the calls below. A service that returned
    neither a record nor an error would make [*notification] panic. *)
Definition CreateNotification (bound : CreateNotificationRequest + string)
  (now1 now2 now3 : Time) (order : list Conn) (repo : R) (clients : gset Conn)
  : R * gset Conn * list Event * Response :=
  match bound with
  | inr err => (repo, clients, [], mkResponse 400 (JSONError err))
  | inl req =>
      match CreateNotification now1 now2 now3 (reqTitle req) (reqMessage req) repo with
      | (repo', (_, Some err)) =>
          (repo', clients, [], mkResponse 400 (JSONError err))
      | (repo', (Some notification, None)) =>
          let '(clients', evs) :=
            BroadcastNotification WriteJSON order notification clients in
          (repo', clients', evs, mkResponse 201 (JSONNotification notification))
      | (repo', (None, None)) => (repo', clients, [], mkResponse 500 NoBody)
      end
  end.

Definition GetNotifications (repo : R) : Response :=
  mkResponse 200 (JSONNotifications (GetUnreadNotifications repo)).

Definition GetAllNotifications (repo : R) : Response :=
  mkResponse 200 (JSONNotifications (GetAll repo)).

Definition MarkAsRead (id : string) (repo : R) : R * Response :=
  match MarkNotificationAsRead id repo with
  | (repo', Some err) => (repo', mkResponse 404 (JSONError err))
  | (repo', None) => (repo', mkResponse 200 (JSONSuccess true))
  end.

Definition ClearAll (repo : R) : R * Response :=
  match ClearAllNotifications repo with
  | (repo', Some err) => (repo', mkResponse 500 (JSONError err))
  | (repo', None) => (repo', mkResponse 200 (JSONSuccess true))
  end.

End Handlers.

End NotificationHandler.

(** The service operations that a frame of the protocol stands for. *)
Definition frameOps (msg : WSMessage) : list Op :=
  if String.eqb (Type_ msg) "get_notifications" then [OpListUnread]
  else if String.eqb (Type_ msg) "mark_read" then
    (if String.eqb (NotificationID msg) "" then [] else [OpMarkRead (NotificationID msg)])
  else if String.eqb (Type_ msg) "clear_all" then [OpClearAll]
  else [].

Definition isGet (msg : WSMessage) : bool :=
  String.eqb (Type_ msg) "get_notifications".

(** ** The command-line sender ([send.go]) *)

Module Send.

Record Config := mkConfig {
  Host : string
}.

(** The sender's own [CreateNotificationRequest]. *)
Record CreateNotificationRequest := mkRequest {
  Title : string;
  Message : string
}.

(** What opening and decoding the configuration file comes to:
    [os.Open] fails with an error for which [os.IsNotExist] holds, or
    with another error, or the file opens and [Decode] gives a
    configuration or an error. *)
Inductive OpenResult :=
  | NotExist
  | OpenError (err : string)
  | Opened (decoded : Config + string).

(** [home] is the result of [os.UserHomeDir()], [openConfig] the file
    system seen from the home directory, at
    [filepath.Join(homeDir, ".notibag", "config.json")]. *)
Definition loadConfig (home : string + string) (openConfig : string -> OpenResult)
  : Config + string :=
  match home with
  | inr err => inr err
  | inl homeDir =>
      match openConfig homeDir with
      | NotExist => inl (mkConfig "http://localhost:8080")
      | OpenError err => inr err
      | Opened (inr err) => inr err
      | Opened (inl config) => inl config
      end
  end.

(** The outcome of [http.Post] and of reading the body: a transport
    error, or a status with the body or the error of [io.ReadAll]. *)
Inductive PostResult :=
  | PostError (err : string)
  | Responded (status : nat) (body : string + string).

Record Exit := mkExit {
  stdout : list string;
  code : nat;
  requests : list (string * CreateNotificationRequest)
}.

(** [main]: the flags are given as they stand after [flag.Parse], an
    absent [-host] being the configured host and an absent [-title] or
    [-message] the empty string. [json.Marshal] of two strings does not
    fail. The result is what was printed, the exit code and the requests
    that were posted. *)
Definition main (home : string + string) (openConfig : string -> OpenResult)
  (hostFlag : option string) (title message : string)
  (post : string -> CreateNotificationRequest -> PostResult) : Exit :=
  match loadConfig home openConfig with
  | inr err => mkExit ["Error loading config: " ++ err] 1 []
  | inl config =>
      let host := match hostFlag with Some h => h | None => Host config end in
      if (String.eqb title "" || String.eqb message "")%bool then
        mkExit ["Usage: send -title <title> -message <message> [-host <host>]"] 1 []
      else
        let req := mkRequest title message in
        let url := host ++ "/api/notifications" in
        match post url req with
        | PostError err => mkExit ["Error sending request: " ++ err] 1 [(url, req)]
        | Responded status (inr err) =>
            mkExit ["Error reading response: " ++ err] 1 [(url, req)]
        | Responded status (inl body) =>
            if negb (Nat.eqb status 201) then
              mkExit ["Error: " ++ body] 1 [(url, req)]
            else mkExit ["Notification sent successfully"] 0 [(url, req)]
        end
  end.

End Send.

(** ** Frames on the wire *)

(** The JSON object of a frame, by its four keys; [None] is an absent
    key. A notification object is identified with the record it
    encodes. *)
Record Wire := mkWire {
  w_type : string;
  w_notification : option Notification;
  w_notifications : option (list Notification);
  w_notification_id : option string
}.

(** [json.Marshal] of a [WSMessage] under its field tags: [type] is
    always written, the three [omitempty] fields only when they are not
    a nil pointer, a slice of length zero, the empty string. *)
Definition marshal (m : WSMessage) : Wire :=
  {| w_type := Type_ m;
     w_notification := Notification_ m;
     w_notifications :=
       match Notifications m with
       | [] => None
       | ns => Some ns
       end;
     w_notification_id :=
       if String.eqb (NotificationID m) "" then None else Some (NotificationID m) |}.

(** [ReadJSON] into a fresh [WSMessage]: a field whose key is absent
    keeps its zero value. *)
Definition unmarshal (w : Wire) : WSMessage :=
  {| Type_ := w_type w;
     Notification_ := w_notification w;
     Notifications := match w_notifications w with Some ns => ns | None => [] end;
     NotificationID := match w_notification_id w with Some id => id | None => "" end |}.

(** ** The page ([App]) *)

Module App.

(** [ws.current.onmessage] on a frame that parsed: the new value of the
    [notifications] state. An element is [None] where the page would
    hold [undefined]. *)
Definition onmessage (prev : list (option Notification)) (data : Wire)
  : list (option Notification) :=
  if String.eqb (w_type data) "notification" then w_notification data :: prev
  else if String.eqb (w_type data) "notifications_list" then
    match w_notifications data with
    | Some ns => map Some ns
    | None => []
    end
  else prev.

(** The frame that [markAsRead(id)] sends when the socket is open. *)
Definition markReadFrame (id : string) : Wire :=
  mkWire "mark_read" None None (Some id).

(** The frame sent when the socket opens. *)
Definition getFrame : Wire := mkWire "get_notifications" None None None.

(** A whole number as a template literal prints it. *)
Definition toString (n : Z) : string :=
  (if n <? 0 then "-" else "")
  ++ utoa (S (Z.to_nat (Z.log2 (Z.abs n)))) (Z.abs n) "".

(** [formatRelativeTime]: [now] and [timestamp] are the two dates in
    milliseconds since the epoch, whole numbers. While their difference
    is at most 2^53 in size the page's arithmetic on it is exact, and
    [Math.floor] of a quotient is the quotient rounded down. *)
Definition formatRelativeTime (now timestamp : Z) : string :=
  let diffInSeconds := (now - timestamp) / 1000 in
  if diffInSeconds <? 60 then toString diffInSeconds ++ "秒前"
  else if diffInSeconds <? 3600 then
    let minutes := diffInSeconds / 60 in toString minutes ++ "分前"
  else if diffInSeconds <? 86400 then
    let hours := diffInSeconds / 3600 in toString hours ++ "時間前"
  else
    let days := diffInSeconds / 86400 in toString days ++ "日前".

End App.

(** ** Formatting of the identifier *)

Lemma digit_inj (a b : Z) :
  0 <= a < 10 -> 0 <= b < 10 -> digit a = digit b -> a = b.
Proof.
  intros Ha Hb E. unfold digit in E.
  apply (f_equal nat_of_ascii) in E.
  rewrite !nat_ascii_embedding in E by lia. lia.
Qed.

Lemma appendInt_2 (x : Z) :
  0 <= x < 100 ->
  appendInt x 2 = String (digit (x / 10)) (String (digit (x mod 10)) "").
Proof.
  intros Hx. unfold appendInt.
  rewrite Z.abs_eq by lia.
  replace (x <? 0) with false by (symmetry; apply Z.ltb_ge; lia).
  replace (x <? 100) with true by (symmetry; apply Z.ltb_lt; lia).
  reflexivity.
Qed.

Lemma appendInt_4 (x : Z) :
  0 <= x < 10000 ->
  appendInt x 4 =
    String (digit (x / 100 / 10)) (String (digit (x / 100 mod 10))
      (String (digit (x mod 100 / 10)) (String (digit (x mod 100 mod 10)) ""))).
Proof.
  intros Hx. unfold appendInt.
  rewrite Z.abs_eq by lia.
  replace (x <? 0) with false by (symmetry; apply Z.ltb_ge; lia).
  replace (x <? 10000) with true by (symmetry; apply Z.ltb_lt; lia).
  reflexivity.
Qed.

Lemma append_empty_r (s : string) : s ++ "" = s.
Proof. induction s as [|c s IH]; simpl; [reflexivity | now rewrite IH]. Qed.

(** The first layout of [generateID] is the six zero-padded fields down
    to the second. *)
Lemma Format_seconds_layout (t : Time) :
  Format t "20060102150405" =
    appendInt (Year t) 4 ++ appendInt (Month t) 2 ++ appendInt (Day t) 2
    ++ appendInt (Hour t) 2 ++ appendInt (Minute t) 2 ++ appendInt (Second t) 2.
Proof.
  rewrite <- (append_empty_r (appendInt (Second t) 2)) at 1. reflexivity.
Qed.

(** The second layout has no layout element: it is copied as it is, and
    the reading is not looked at. *)
Lemma Format_000_literal (t : Time) : Format t "000" = "000".
Proof. reflexivity. Qed.

(** With the separator in front the same digits would be the
    milliseconds of the reading. *)
Example Format_dot_000 :
  Format (mkTime 2024 2 29 9 5 7 123456789) ".000" = ".123".
Proof. reflexivity. Qed.

Example generateID_example :
  generateID (mkTime 2024 2 29 9 5 7 123456789) (mkTime 2024 2 29 9 5 7 123460000)
  = "20240229090507-000".
Proof. reflexivity. Qed.

(** The identifier is the second of the first reading, a dash and the
    text of the second layout. *)
Lemma generateID_shape (now1 now2 : Time) :
  generateID now1 now2 = Format now1 "20060102150405" ++ "-000".
Proof. unfold generateID. now rewrite Format_000_literal. Qed.

Lemma two_digits_inj (x y : Z) :
  0 <= x < 100 -> 0 <= y < 100 ->
  digit (x / 10) = digit (y / 10) -> digit (x mod 10) = digit (y mod 10) ->
  x = y.
Proof.
  intros Hx Hy E1 E2.
  apply digit_inj in E1; [| divmod | divmod].
  apply digit_inj in E2; [| divmod | divmod].
  divmod.
Qed.

(** On calendar readings the identifier tells the second of the first
    reading apart. *)
Lemma generateID_inj (a1 a2 b1 b2 : Time) :
  calendarTime a1 -> calendarTime b1 ->
  generateID a1 a2 = generateID b1 b2 ->
  sameSecond a1 b1.
Proof.
  intros (Hy & Hmo & Hd & Hh & Hmi & Hs & _) (Hy' & Hmo' & Hd' & Hh' & Hmi' & Hs' & _) E.
  rewrite !generateID_shape, !Format_seconds_layout in E.
  rewrite !appendInt_4, !appendInt_2 in E by lia.
  simpl in E.
  injection E as Ey1 Ey2 Ey3 Ey4 Em1 Em2 Ed1 Ed2 Eh1 Eh2 Ei1 Ei2 Es1 Es2.
  unfold sameSecond.
  assert (Year a1 / 100 = Year b1 / 100)
    by (apply two_digits_inj; [divmod | divmod | auto | auto]).
  assert (Year a1 mod 100 = Year b1 mod 100)
    by (apply two_digits_inj; [divmod | divmod | auto | auto]).
  repeat split; try (apply two_digits_inj; [lia | lia | auto | auto]).
  divmod.
Qed.

Lemma generateID_sameSecond (a1 a2 b1 b2 : Time) :
  sameSecond a1 b1 -> generateID a1 a2 = generateID b1 b2.
Proof.
  intros (Ey & Emo & Ed & Eh & Emi & Es).
  rewrite !generateID_shape, !Format_seconds_layout.
  now rewrite Ey, Emo, Ed, Eh, Emi, Es.
Qed.


(** A generated identifier has eighteen characters; the seeded ones have
    one. *)
Lemma generateID_length (now1 now2 : Time) :
  calendarTime now1 -> String.length (generateID now1 now2) = 18%nat.
Proof.
  intros (Hy & Hmo & Hd & Hh & Hmi & Hs & _).
  rewrite generateID_shape, Format_seconds_layout.
  rewrite appendInt_4, !appendInt_2 by lia.
  reflexivity.
Qed.

Local Close Scope string_scope.

#[local] Arguments generateID : simpl never.

(** ** The repository *)

Lemma markLoop_not_found (id : string) (ns : list Notification) :
  Forall (fun n => ID n <> id) ns ->
  InMemory.markLoop id ns = (ns, errors_New "notification not found").
Proof.
  induction 1 as [|n ns Hn _ IH]; simpl; [reflexivity |].
  apply String.eqb_neq in Hn. now rewrite Hn, IH.
Qed.

Lemma markLoop_first (id : string) (pre post : list Notification) (x : Notification) :
  Forall (fun n => ID n <> id) pre -> ID x = id ->
  InMemory.markLoop id (pre ++ x :: post) = (pre ++ setRead x :: post, None).
Proof.
  intros Hpre Hx. induction Hpre as [|n pre Hn _ IH]; simpl.
  - apply String.eqb_eq in Hx. now rewrite Hx.
  - apply String.eqb_neq in Hn. now rewrite Hn, IH.
Qed.

(** The two ways the loop ends. *)
Lemma markLoop_cases (id : string) (ns : list Notification) :
  (Forall (fun n => ID n <> id) ns
   /\ InMemory.markLoop id ns = (ns, errors_New "notification not found"))
  \/ (exists pre x post,
        ns = pre ++ x :: post /\ Forall (fun n => ID n <> id) pre /\ ID x = id
        /\ InMemory.markLoop id ns = (pre ++ setRead x :: post, None)).
Proof.
  induction ns as [|n ns IH].
  - left. split; [constructor | reflexivity].
  - destruct (String.eqb_spec (ID n) id) as [E | NE].
    + right. exists [], n, ns. repeat split; [constructor | assumption |].
      simpl. apply String.eqb_eq in E. now rewrite E.
    + destruct IH as [[Hall Hrun] | (pre & x & post & -> & Hpre & Hx & Hrun)].
      * left. split; [now constructor |].
        now apply markLoop_not_found; constructor.
      * right. exists (n :: pre), x, post.
        repeat split; [now constructor | assumption |].
        now apply (markLoop_first id (n :: pre)); [constructor |].
Qed.

(** The loop as an update in place: the write goes to the least index
    [i] with [notifications[i].ID = id], no other element is touched. *)
Lemma markLoop_index (id : string) (ns : list Notification) :
  InMemory.markLoop id ns
  = match list_find (fun n => ID n = id) ns with
    | Some (i, n) => (<[i := setRead n]> ns, None)
    | None => (ns, errors_New "notification not found")
    end.
Proof.
  induction ns as [|n ns IH]; simpl; [reflexivity |].
  destruct (String.eqb_spec (ID n) id) as [E | NE].
  - now rewrite decide_True by exact E.
  - rewrite decide_False by exact NE. rewrite IH.
    now destruct (list_find (fun n => ID n = id) ns) as [[i x] |].
Qed.

Lemma evolves_refl (a : Notification) : evolves a a.
Proof. unfold evolves. auto. Qed.

Lemma evolves_setRead (a : Notification) : evolves a (setRead a).
Proof. unfold evolves. simpl. auto. Qed.

Lemma evolves_trans (a b c : Notification) :
  evolves a b -> evolves b c -> evolves a c.
Proof. unfold evolves. intuition congruence. Qed.

Lemma Forall2_evolves_refl (ns : list Notification) : Forall2 evolves ns ns.
Proof. induction ns; constructor; auto using evolves_refl. Qed.

Lemma markLoop_evolves (id : string) (ns : list Notification) :
  Forall2 evolves ns (fst (InMemory.markLoop id ns)).
Proof.
  destruct (markLoop_cases id ns) as [[_ ->] | (pre & x & post & -> & _ & _ & ->)];
    simpl.
  - apply Forall2_evolves_refl.
  - apply Forall2_app; [apply Forall2_evolves_refl |].
    constructor; [apply evolves_setRead | apply Forall2_evolves_refl].
Qed.

(** C9. A freshly constructed store is not empty: it holds exactly the
    two seeded records, identifiers "1" and "2" with their titles, both
    unread, so the first unread listing has length two. *)
Theorem fresh_store_is_seeded (ts1 ts2 : Time) :
  let r := InMemory.NewInMemoryNotificationRepository ts1 ts2 in
  notifications r <> []
  /\ map ID (notifications r) = ["1"; "2"]
  /\ map Title (notifications r) = ["システム起動"; "重要な更新"]
  /\ map Read (notifications r) = [false; false]
  /\ GetUnreadNotifications r = notifications r
  /\ length (GetUnreadNotifications r) = 2%nat.
Proof. simpl. repeat split; discriminate. Qed.



(** C5. For a non-empty title and a non-empty message [CreateNotification]
    succeeds and returns a record with [Read = false] holding that title
    and message; afterwards that record is the head of the unread listing
    and of the full listing, and the records stored before follow in
    their earlier order. *)
Theorem Create_prepends (now1 now2 now3 : Time) (title message : string)
  (r : InMemoryNotificationRepository) :
  title <> "" -> message <> "" ->
  exists n r',
    CreateNotification now1 now2 now3 title message r = (r', (Some n, None))
    /\ Read n = false /\ Title n = title /\ Message n = message
    /\ Timestamp n = now3
    /\ GetUnreadNotifications r' = n :: GetUnreadNotifications r
    /\ GetAll r' = n :: GetAll r.
Proof.
  intros Ht Hm. unfold CreateNotification.
  apply String.eqb_neq in Ht, Hm. rewrite Ht, Hm. simpl.
  eexists _, _. repeat split.
Qed.

Lemma Create_prepends_witness :
  let t := mkTime 2024 2 29 9 5 7 0 in
  let r := InMemory.NewInMemoryNotificationRepository t t in
  exists n r',
    CreateNotification t t t "Build done" "Target X compiled" r
    = (r', (Some n, None))
    /\ Read n = false /\ Title n = "Build done"
    /\ Message n = "Target X compiled" /\ Timestamp n = t
    /\ GetUnreadNotifications r' = n :: GetUnreadNotifications r
    /\ GetAll r' = n :: GetAll r.
Proof.
  intros t r.
  apply (Create_prepends t t t "Build done" "Target X compiled" r); discriminate.
Defined.

(** C6. [MarkNotificationAsRead] with the empty identifier fails with
    the InvalidArgument error whatever the repository is and leaves it
    as it was (the repository is not called); with a non-empty
    identifier that no stored record has it fails with NotFound and the
    sequence is unchanged; with an identifier that a stored record has
    it succeeds. *)
Theorem MarkNotificationAsRead_errors :
  (forall (R : Type) (H : NotificationRepository R) (repo : R),
      exists e, MarkNotificationAsRead "" repo = (repo, e) /\ InvalidArgument e)
  /\ (forall (id : string) (r : InMemoryNotificationRepository),
        id <> "" -> Forall (fun n => ID n <> id) (notifications r) ->
        exists e, MarkNotificationAsRead id r = (r, e) /\ NotFound e)
  /\ (forall (id : string) (r : InMemoryNotificationRepository),
        id <> "" -> Exists (fun n => ID n = id) (notifications r) ->
        snd (MarkNotificationAsRead id r) = None).
Proof.
  split; [| split].
  - intros R H repo. eexists. split; [reflexivity |]. right. reflexivity.
  - intros id [ns] Hid Hall. unfold MarkNotificationAsRead.
    apply String.eqb_neq in Hid. rewrite Hid. simpl.
    unfold InMemory.MarkAsRead. simpl in *. rewrite markLoop_not_found by assumption.
    eexists. split; reflexivity.
  - intros id [ns] Hid Hex. unfold MarkNotificationAsRead.
    apply String.eqb_neq in Hid. rewrite Hid. simpl.
    unfold InMemory.MarkAsRead. simpl in *.
    destruct (markLoop_cases id ns) as [[Hall _] | (pre & x & post & _ & _ & _ & ->)];
      [| reflexivity].
    exfalso. apply Exists_exists in Hex as (n & Hin & Hn).
    rewrite Forall_forall in Hall. exact (Hall n Hin Hn).
Qed.

Lemma MarkNotificationAsRead_errors_witness :
  let t := mkTime 2024 2 29 9 5 7 0 in
  let r := InMemory.NewInMemoryNotificationRepository t t in
  (exists e, MarkNotificationAsRead "" r = (r, e) /\ InvalidArgument e)
  /\ (exists e, MarkNotificationAsRead "unknown" r = (r, e) /\ NotFound e)
  /\ snd (MarkNotificationAsRead "2" r) = None.
Proof.
  intros t r.
  destruct MarkNotificationAsRead_errors as (Hempty & Hunknown & Hknown).
  split; [apply Hempty | split].
  - apply Hunknown; [discriminate | repeat constructor; discriminate].
  - apply Hknown; [discriminate |].
    apply Exists_cons_tl, Exists_cons_hd. reflexivity.
Defined.

(** C2, as the code has it. [CreateNotification] fails exactly when the
    title or the message is the empty string, the error is then the
    InvalidArgument one, nothing is returned and the repository (any
    repository) is left as it was. The fields are compared as they
    arrive: nothing is trimmed. *)
Theorem Create_rejects_empty_fields
  (now1 now2 now3 : Time) (title message : string) :
  (forall r : InMemoryNotificationRepository,
      snd (snd (CreateNotification now1 now2 now3 title message r)) <> None
      <-> title = "" \/ message = "")
  /\ (forall (R : Type) (H : NotificationRepository R) (repo : R),
        title = "" \/ message = "" ->
        exists e,
          CreateNotification now1 now2 now3 title message repo = (repo, (None, e))
          /\ InvalidArgument e).
Proof.
  split.
  - intros r. unfold CreateNotification.
    destruct (String.eqb_spec title "") as [-> | Ht]; simpl.
    + split; [auto | discriminate].
    + destruct (String.eqb_spec message "") as [-> | Hm]; simpl.
      * split; [auto | discriminate].
      * split; [congruence | intros [? | ?]; contradiction].
  - intros R H repo Hempty. unfold CreateNotification.
    assert ((String.eqb title "" || String.eqb message "")%bool = true) as ->.
    { destruct Hempty as [-> | ->]; [reflexivity |].
      rewrite (String.eqb_refl ""). apply orb_true_r. }
    eexists. split; [reflexivity | left; reflexivity].
Qed.

Lemma Create_rejects_empty_fields_witness :
  let t := mkTime 2024 2 29 9 5 7 0 in
  let r := InMemory.NewInMemoryNotificationRepository t t in
  (exists e, CreateNotification t t t "" "x" r = (r, (None, e)) /\ InvalidArgument e)
  /\ (exists e, CreateNotification t t t "x" "" r = (r, (None, e)) /\ InvalidArgument e).
Proof.
  intros t r. split.
  - apply (Create_rejects_empty_fields t t t "" "x"). left. reflexivity.
  - apply (Create_rejects_empty_fields t t t "x" ""). right. reflexivity.
Defined.

(** C2 as stated does not hold: a title of one blank is empty after
    trimming, and [CreateNotification] accepts it and stores the
    record. *)
Lemma Create_accepts_blank_title :
  let t := mkTime 2024 2 29 9 5 7 0 in
  let r := InMemory.NewInMemoryNotificationRepository t t in
  let n := mkNotification "20240229090507-000" " " "x" t false in
  spec_trimmed " " = ""
  /\ CreateNotification t t t " " "x" r
     = (mkRepo (n :: notifications r), (Some n, None)).
Proof. vm_compute. split; reflexivity. Qed.




(** ** The read flag along sequences of operations *)

Lemma grows_refl (r : InMemoryNotificationRepository) : grows r r.
Proof. exists [], (notifications r). split; [reflexivity | apply Forall2_evolves_refl]. Qed.

Lemma grows_trans (r1 r2 r3 : InMemoryNotificationRepository) :
  grows r1 r2 -> grows r2 r3 -> grows r1 r3.
Proof.
  intros (new1 & old1 & E1 & H1) (new2 & old2 & E2 & H2).
  rewrite E1 in H2. apply Forall2_app_inv_l in H2 as (k1 & k2 & _ & Hk2 & ->).
  exists (new2 ++ k1), k2. split; [now rewrite E2, app_assoc |].
  exact (Forall2_trans evolves evolves evolves _ _ _ evolves_trans H1 Hk2).
Qed.

Lemma applyOp_grows (op : Op) (r : InMemoryNotificationRepository) :
  isClear op = false -> grows r (applyOp op r).
Proof.
  destruct op as [n | id | | | | now1 now2 now3 title message | id |];
    simpl; intros Hc; try discriminate; try apply grows_refl.
  - exists [n], (notifications r). split; [reflexivity | apply Forall2_evolves_refl].
  - exists [], (fst (InMemory.markLoop id (notifications r))). split.
    + unfold InMemory.MarkAsRead. now destruct (InMemory.markLoop id (notifications r)).
    + apply markLoop_evolves.
  - unfold CreateNotification.
    destruct (String.eqb title "" || String.eqb message "")%bool; simpl;
      [apply grows_refl |].
    eexists [_], (notifications r). split; [reflexivity | apply Forall2_evolves_refl].
  - unfold MarkNotificationAsRead. destruct (String.eqb id ""); simpl;
      [apply grows_refl |].
    exists [], (fst (InMemory.markLoop id (notifications r))). split.
    + unfold InMemory.MarkAsRead. now destruct (InMemory.markLoop id (notifications r)).
    + apply markLoop_evolves.
Qed.

Lemma runOps_grows (ops : list Op) (r : InMemoryNotificationRepository) :
  existsb isClear ops = false -> grows r (runOps ops r).
Proof.
  revert r. induction ops as [|op ops IH]; intros r Hc; [apply grows_refl |].
  simpl in Hc. apply orb_false_iff in Hc as [Hop Hops].
  apply (grows_trans r (applyOp op r)); [now apply applyOp_grows |].
  now apply IH.
Qed.

Lemma runOps_after_clear (ops : list Op) (r r' : InMemoryNotificationRepository) :
  existsb isClear ops = true -> runOps ops r = runOps ops r'.
Proof.
  revert r r'. induction ops as [|op ops IH]; intros r r' Hc; [discriminate |].
  simpl in Hc. destruct (isClear op) eqn:Hop.
  - destruct op; try discriminate; reflexivity.
  - simpl in Hc. simpl. now apply IH.
Qed.

Lemma evolves_read_eq (a b : Notification) :
  Read a = true -> evolves a b -> b = a.
Proof.
  destruct a, b. unfold evolves. simpl. intros -> (-> & -> & -> & -> & Hr).
  now rewrite Hr.
Qed.

(** C4. Along any sequence of store and service operations that does
    not clear the store, the final sequence is the initial records, each
    with the same fields and a read flag that has not gone back, behind
    the records inserted meanwhile; a sequence that clears the store
    keeps nothing of the initial records. So after [MarkNotificationAsRead]
    has succeeded the marked record stays in place with [Read = true],
    and the unread listing is the one of the store without it, whatever
    operations (further mark-read calls included) follow. *)
Theorem read_flag_never_reverts :
  (forall (ops : list Op) (r : InMemoryNotificationRepository),
      existsb isClear ops = false ->
      exists new old',
        notifications (runOps ops r) = new ++ old'
        /\ Forall2 evolves (notifications r) old')
  /\ (forall (ops : list Op) (r r' : InMemoryNotificationRepository),
        existsb isClear ops = true -> runOps ops r = runOps ops r')
  /\ (forall (id : string) (r r1 : InMemoryNotificationRepository),
        MarkNotificationAsRead id r = (r1, None) ->
        exists pre x post,
          notifications r = pre ++ x :: post
          /\ Forall (fun n => ID n <> id) pre /\ ID x = id
          /\ notifications r1 = pre ++ setRead x :: post
          /\ forall ops : list Op,
              existsb isClear ops = false ->
              exists new pre' post',
                notifications (runOps ops r1) = new ++ pre' ++ setRead x :: post'
                /\ length pre' = length pre /\ length post' = length post
                /\ GetUnreadNotifications (runOps ops r1)
                   = GetUnreadNotifications (mkRepo (new ++ pre' ++ post'))).
Proof.
  split; [exact runOps_grows | split; [exact runOps_after_clear |]].
  intros id [ns] r1 Hmark. unfold MarkNotificationAsRead in Hmark.
  destruct (String.eqb id ""); [discriminate |].
  simpl in Hmark. unfold InMemory.MarkAsRead in Hmark. simpl in Hmark.
  destruct (markLoop_cases id ns)
    as [[_ Hrun] | (pre & x & post & -> & Hpre & Hx & Hrun)];
    rewrite Hrun in Hmark; [discriminate |].
  injection Hmark as <-.
  exists pre, x, post. repeat split; try assumption.
  intros ops Hc.
  destruct (runOps_grows ops (mkRepo (pre ++ setRead x :: post)) Hc)
    as (new & old' & E & Hold).
  simpl in Hold.
  apply Forall2_app_inv_l in Hold as (pre' & k & Hpre' & Hk & ->).
  apply Forall2_cons_inv_l in Hk as (y & post' & Hy & Hpost' & ->).
  apply evolves_read_eq in Hy; [subst y | reflexivity].
  exists new, pre', post'. split; [exact E |].
  split; [symmetry; exact (Forall2_length _ _ _ Hpre') |].
  split; [symmetry; exact (Forall2_length _ _ _ Hpost') |].
  simpl. unfold InMemory.GetUnread. rewrite E. simpl.
  rewrite !List.filter_app. reflexivity.
Qed.

Lemma read_flag_never_reverts_witness :
  let t := mkTime 2024 2 29 9 5 7 0 in
  let r := InMemory.NewInMemoryNotificationRepository t t in
  let ops := [OpMarkRead "1"; OpCreate t t t "a" "b"; OpMarkRead "1";
              OpInsert (mkNotification "1" "again" "c" t false); OpMarkRead "2"] in
  (exists new old',
      notifications (runOps ops r) = new ++ old'
      /\ Forall2 evolves (notifications r) old')
  /\ runOps (OpClearAll :: ops) r = runOps (OpClearAll :: ops) (mkRepo [])
  /\ exists pre x post,
      notifications r = pre ++ x :: post
      /\ Forall (fun n => ID n <> "1") pre /\ ID x = "1"
      /\ notifications (fst (MarkNotificationAsRead "1" r)) = pre ++ setRead x :: post
      /\ forall ops : list Op,
          existsb isClear ops = false ->
          exists new pre' post',
            notifications (runOps ops (fst (MarkNotificationAsRead "1" r)))
            = new ++ pre' ++ setRead x :: post'
            /\ length pre' = length pre /\ length post' = length post
            /\ GetUnreadNotifications (runOps ops (fst (MarkNotificationAsRead "1" r)))
               = GetUnreadNotifications (mkRepo (new ++ pre' ++ post')).
Proof.
  intros t r ops.
  destruct read_flag_never_reverts as (Hgrow & Hclear & Hmark).
  split; [apply Hgrow; reflexivity | split; [apply Hclear; reflexivity |]].
  apply (Hmark "1" r). reflexivity.
Defined.

(** ** Broadcast *)

Section Broadcast.

Variable WriteJSON : Conn -> WSMessage -> error.
Variable message : WSMessage.

Lemma broadcastLoop_writes (order : list Conn) (clients : gset Conn) :
  writes (snd (broadcastLoop WriteJSON message order clients))
  = map (fun c => (c, message)) order.
Proof.
  revert clients. induction order as [|c order IH]; intros clients; simpl;
    [reflexivity |].
  destruct (WriteJSON c message) as [err |].
  - specialize (IH (clients ∖ {[c]})).
    destruct (broadcastLoop WriteJSON message order (clients ∖ {[c]})). simpl in *.
    now rewrite IH.
  - specialize (IH clients).
    destruct (broadcastLoop WriteJSON message order clients). simpl in *.
    now rewrite IH.
Qed.

Lemma broadcastLoop_clients (order : list Conn) (clients : gset Conn) (c : Conn) :
  c ∈ fst (broadcastLoop WriteJSON message order clients)
  <-> c ∈ clients /\ (c ∈ order -> WriteJSON c message = None).
Proof.
  revert clients. induction order as [|d order IH]; intros clients; simpl.
  - split; [intros Hc; split; [exact Hc | intros Hin; inversion Hin] | tauto].
  - destruct (WriteJSON d message) as [err |] eqn:Hd.
    + specialize (IH (clients ∖ {[d]})).
      destruct (broadcastLoop WriteJSON message order (clients ∖ {[d]})). simpl in *.
      rewrite IH, elem_of_difference, elem_of_singleton, elem_of_cons.
      split.
      * intros [[Hc Hne] Hok]. split; [exact Hc |]. intros [-> | Hin]; [tauto | auto].
      * intros [Hc Hok]. repeat split; [exact Hc | | auto].
        intros ->. specialize (Hok (or_introl eq_refl)). congruence.
    + specialize (IH clients).
      destruct (broadcastLoop WriteJSON message order clients). simpl in *.
      rewrite IH, elem_of_cons. split.
      * intros [Hc Hok]. split; [exact Hc |]. intros [-> | Hin]; auto.
      * intros [Hc Hok]. split; auto.
Qed.

Lemma broadcastLoop_received_absent (order : list Conn) (clients : gset Conn) (c : Conn) :
  c ∉ order \/ WriteJSON c message <> None ->
  received c (snd (broadcastLoop WriteJSON message order clients)) = [].
Proof.
  revert clients. induction order as [|d order IH]; intros clients Hc; simpl;
    [reflexivity |].
  assert (Hrest : c ∉ order \/ WriteJSON c message <> None).
  { destruct Hc as [Hc | Hc]; [left | right; exact Hc].
    intros Hin. apply Hc. now apply elem_of_cons; right. }
  destruct (WriteJSON d message) as [err |] eqn:Hd.
  - specialize (IH (clients ∖ {[d]}) Hrest).
    destruct (broadcastLoop WriteJSON message order (clients ∖ {[d]})). simpl in *.
    exact IH.
  - specialize (IH clients Hrest).
    destruct (broadcastLoop WriteJSON message order clients). simpl in *.
    destruct (Nat.eqb_spec d c) as [-> | Hne]; [| exact IH].
    exfalso. destruct Hc as [Hc | Hc]; [| congruence].
    apply Hc. now apply elem_of_cons; left.
Qed.

Lemma broadcastLoop_received_once (order : list Conn) (clients : gset Conn) (c : Conn) :
  NoDup order -> c ∈ order -> WriteJSON c message = None ->
  received c (snd (broadcastLoop WriteJSON message order clients)) = [message].
Proof.
  intros Hnd. revert clients. induction Hnd as [|d order Hd Hnd IH];
    intros clients Hin Hok; [inversion Hin |].
  simpl. apply elem_of_cons in Hin.
  destruct (Nat.eq_dec d c) as [-> | Hne].
  - rewrite Hok.
    pose proof (broadcastLoop_received_absent order clients c (or_introl Hd)) as Hrest.
    destruct (broadcastLoop WriteJSON message order clients). simpl in *.
    now rewrite Nat.eqb_refl, Hrest.
  - destruct Hin as [-> | Hin]; [congruence |].
    destruct (WriteJSON d message) as [err |].
    + specialize (IH (clients ∖ {[d]}) Hin Hok).
      destruct (broadcastLoop WriteJSON message order (clients ∖ {[d]})). simpl in *.
      exact IH.
    + specialize (IH clients Hin Hok).
      destruct (broadcastLoop WriteJSON message order clients). simpl in *.
      apply Nat.eqb_neq in Hne. now rewrite Hne.
Qed.

End Broadcast.

(** C3. Whatever order the map yields its entries in,
    [BroadcastNotification] attempts one write of the frame on each
    registered connection and on no other; afterwards the registry holds
    exactly the registered connections whose write succeeded; each of
    these received the frame once, however many of the other writes
    failed. The call has no error result: failures show only as
    removals. *)
Theorem Broadcast_isolates_failures
  (WriteJSON : Conn -> WSMessage -> error) (order : list Conn)
  (notification : Notification) (clients : gset Conn) :
  order ≡ₚ elements clients ->
  let frame := notificationFrame notification in
  let result := BroadcastNotification WriteJSON order notification clients in
  attempted (snd result) ≡ₚ elements clients
  /\ (forall c m, (c, m) ∈ writes (snd result) -> m = frame)
  /\ (forall c, c ∈ fst result <-> c ∈ clients /\ WriteJSON c frame = None)
  /\ (forall c, c ∈ clients -> WriteJSON c frame = None ->
                received c (snd result) = [frame])
  /\ (forall c, c ∈ clients -> WriteJSON c frame <> None ->
                (c ∉ fst result) /\ received c (snd result) = []).
Proof.
  intros Hperm frame result. unfold result, BroadcastNotification. fold frame.
  assert (Hin : forall c, c ∈ order <-> c ∈ clients).
  { intros c. rewrite Hperm. apply elem_of_elements. }
  assert (Hnd : NoDup order).
  { rewrite Hperm. apply NoDup_elements. }
  split; [| split; [| split; [| split]]].
  - unfold attempted. rewrite broadcastLoop_writes, map_map. simpl.
    now rewrite map_id.
  - intros c m. rewrite broadcastLoop_writes. intros Hm.
    apply list_elem_of_fmap in Hm as (d & E & _). congruence.
  - intros c. rewrite broadcastLoop_clients, Hin. tauto.
  - intros c Hc Hok. apply broadcastLoop_received_once; [exact Hnd | | exact Hok].
    now apply Hin.
  - intros c Hc Hfail. split.
    + rewrite broadcastLoop_clients, Hin. tauto.
    + apply broadcastLoop_received_absent. now right.
Qed.

Lemma Broadcast_isolates_failures_witness :
  let WriteJSON := fun (c : Conn) (_ : WSMessage) =>
                     if Nat.eqb c 1 then Some "broken pipe" else None in
  let n := mkNotification "7" "Build done" "Target X compiled"
             (mkTime 2024 2 29 9 5 7 0) false in
  let clients : gset Conn := {[1%nat; 2%nat]} in
  let result := BroadcastNotification WriteJSON (elements clients) n clients in
  elements (fst result) = [2%nat]
  /\ received 2%nat (snd result) = [notificationFrame n]
  /\ 1%nat ∉ fst result.
Proof.
  intros WriteJSON n clients result.
  destruct (Broadcast_isolates_failures WriteJSON (elements clients) n clients
              (reflexivity _)) as (_ & _ & _ & Hok & Hfail).
  split; [vm_compute; reflexivity | split].
  - apply Hok; [vm_compute; set_solver | reflexivity].
  - apply Hfail; [set_solver | discriminate].
Defined.

(** ** Protocol handler *)

(** C8. One turn of the read loop on a frame: a [get_notifications]
    frame makes exactly one write, on the connection the frame came
    from, of a [notifications_list] frame that carries the current
    unread listing, and leaves the store as it was; a frame of any other
    type ([mark_read], [clear_all], unknown) makes no write at all, and
    whatever else happens is a log line. *)
Theorem serveFrame_replies
  (WriteJSON : Conn -> WSMessage -> error)
  (R : Type) (H : NotificationRepository R)
  (conn : Conn) (msg : WSMessage) (repo : R) :
  let result := serveFrame WriteJSON conn msg repo in
  let reply := listFrame (GetUnreadNotifications repo) in
  Type_ reply = "notifications_list"
  /\ Notifications reply = GetUnreadNotifications repo
  /\ (Type_ msg = "get_notifications" ->
      fst result = repo
      /\ writes (snd result) = [(conn, reply)]
      /\ exists logs, snd result = EvWrite conn reply (WriteJSON conn reply) :: logs
                      /\ Forall isLog logs)
  /\ (Type_ msg <> "get_notifications" ->
      writes (snd result) = [] /\ Forall isLog (snd result)).
Proof.
  intros result reply. subst result reply.
  split; [reflexivity | split; [reflexivity | split]].
  - intros Hty. unfold serveFrame, HandleMessage.
    apply String.eqb_eq in Hty. rewrite Hty. simpl.
    split; [reflexivity |].
    destruct (WriteJSON conn (listFrame (GetUnreadNotifications repo))); simpl;
      (split; [reflexivity |]); eexists; (split; [reflexivity |]);
      repeat constructor.
  - intros Hty. unfold serveFrame, HandleMessage.
    apply String.eqb_neq in Hty. rewrite Hty.
    destruct (String.eqb (Type_ msg) "mark_read").
    + destruct (negb (String.eqb (NotificationID msg) "")).
      * destruct (MarkNotificationAsRead (NotificationID msg) repo) as [repo' [e |]];
          simpl; split; repeat constructor.
      * simpl. split; repeat constructor.
    + destruct (String.eqb (Type_ msg) "clear_all").
      * destruct (ClearAllNotifications repo) as [repo' [e |]];
          simpl; split; repeat constructor.
      * simpl. split; repeat constructor.
Qed.

Lemma serveFrame_replies_witness :
  let WriteJSON := fun (_ : Conn) (_ : WSMessage) => @None string in
  let t := mkTime 2024 2 29 9 5 7 0 in
  let r := InMemory.NewInMemoryNotificationRepository t t in
  let get := mkWSMessage "get_notifications" None [] "" in
  let mark := mkWSMessage "mark_read" None [] "unknown" in
  writes (snd (serveFrame WriteJSON 3%nat get r))
  = [(3%nat, listFrame (notifications r))]
  /\ writes (snd (serveFrame WriteJSON 3%nat mark r)) = [].
Proof.
  intros WriteJSON t r get mark. split.
  - destruct (serveFrame_replies WriteJSON _ _ 3%nat get r) as (_ & _ & Hget & _).
    apply Hget. reflexivity.
  - destruct (serveFrame_replies WriteJSON _ _ 3%nat mark r) as (_ & _ & _ & Hother).
    apply Hother. discriminate.
Defined.

(** ** Concurrent broadcasts *)

Lemma count_insert (f : Concurrent.Thread -> bool) (l : list Concurrent.Thread)
  (i : nat) (x y : Concurrent.Thread) :
  l !! i = Some x ->
  (Concurrent.count f (<[i:=y]> l) + Nat.b2n (f x)
   = Concurrent.count f l + Nat.b2n (f y))%nat.
Proof.
  unfold Concurrent.count. revert i.
  induction l as [|a l IH]; intros [|i] Hi; simpl in *; try discriminate.
  - injection Hi as ->. destruct (f x), (f y); simpl; lia.
  - specialize (IH i Hi). destruct (f a); simpl; lia.
Qed.

Lemma count_pos (f : Concurrent.Thread -> bool) (l : list Concurrent.Thread)
  (i : nat) (x : Concurrent.Thread) :
  l !! i = Some x -> f x = true -> (1 <= Concurrent.count f l)%nat.
Proof.
  unfold Concurrent.count. revert i.
  induction l as [|a l IH]; intros [|i] Hi Hx; simpl in *; try discriminate.
  - injection Hi as ->. rewrite Hx. simpl. lia.
  - specialize (IH i Hi Hx). destruct (f a); simpl; lia.
Qed.

Lemma init_lockInv (clients0 : gset Conn) (ths : list Concurrent.Thread) :
  Forall Concurrent.notStarted ths ->
  Concurrent.lockInv (Concurrent.init clients0 ths).
Proof.
  intros Hths. unfold Concurrent.lockInv, Concurrent.count. simpl.
  induction Hths as [|th ths Hth _ [IH1 IH2]]; [split; reflexivity |].
  destruct th as [c [] | c [] | m []]; simpl in *; try contradiction; auto.
Qed.

(** Each step of [tid] from a thread [th] puts a thread [th'] in its
    place; the counts of lock holders move accordingly. *)
Ltac count_step Hth :=
  match goal with
  | |- context [<[_ := ?th']> _] =>
      pose proof (count_insert Concurrent.holdsRead _ _ _ th' Hth);
      pose proof (count_insert Concurrent.holdsWrite _ _ _ th' Hth)
  end.

Ltac lock_arith Hth :=
  unfold Concurrent.lockInv; simpl; count_step Hth; simpl in *;
  repeat match goal with w : bool |- _ => destruct w end;
  simpl in *; lia.

Lemma step_lockInv (WriteJSON : Conn -> WSMessage -> error)
  (tid : nat) (s s' : Concurrent.State) :
  Concurrent.lockInv s -> Concurrent.step WriteJSON tid s = Some s' ->
  Concurrent.lockInv s'.
Proof.
  intros [Hr Hw] Hstep. unfold Concurrent.step in Hstep.
  destruct (Concurrent.threads s !! tid) as [th |] eqn:Hth; [| discriminate].
  destruct s as [cl [w rd] ths tr]. simpl in *.
  destruct th as [c pc | c pc | m pc].
  - destruct pc; simpl in Hstep; try discriminate;
      [ unfold Concurrent.canLock in Hstep; simpl in Hstep;
        destruct w; simpl in Hstep; [discriminate |];
        destruct (Nat.eqb_spec rd 0); [| discriminate] | | ];
      injection Hstep as <-; lock_arith Hth.
  - destruct pc; simpl in Hstep; try discriminate;
      [ unfold Concurrent.canLock in Hstep; simpl in Hstep;
        destruct w; simpl in Hstep; [discriminate |];
        destruct (Nat.eqb_spec rd 0); [| discriminate] | | ];
      injection Hstep as <-; lock_arith Hth.
  - pose proof (count_pos Concurrent.holdsRead _ _ _ Hth) as Hpos.
    destruct pc as [| | [|client todo] | client err todo |]; simpl in Hstep;
      try discriminate.
    + unfold Concurrent.canRLock in Hstep. simpl in Hstep.
      destruct w; simpl in Hstep; [discriminate |].
      injection Hstep as <-; lock_arith Hth.
    + injection Hstep as <-; lock_arith Hth.
    + specialize (Hpos eq_refl).
      injection Hstep as <-; lock_arith Hth.
    + destruct (bool_decide (client ∈ cl));
        [destruct (WriteJSON client m) |];
        injection Hstep as <-; lock_arith Hth.
    + injection Hstep as <-; lock_arith Hth.
Qed.

Lemma reachable_lockInv (WriteJSON : Conn -> WSMessage -> error)
  (clients0 : gset Conn) (ths : list Concurrent.Thread) (s : Concurrent.State) :
  Forall Concurrent.notStarted ths ->
  Concurrent.reachable WriteJSON (Concurrent.init clients0 ths) s ->
  Concurrent.lockInv s.
Proof.
  intros Hths Hreach. induction Hreach as [| s tid s' _ IH Hstep].
  - now apply init_lockInv.
  - exact (step_lockInv WriteJSON tid s s' IH Hstep).
Qed.

(** X20. What the lock does achieve: while any broadcast is inside its
    critical section, no thread running [AddClient] or [RemoveClient]
    can take a step. *)
Lemma updates_wait_for_broadcasts (WriteJSON : Conn -> WSMessage -> error)
  (clients0 : gset Conn) (ths : list Concurrent.Thread) (s : Concurrent.State)
  (tid tid' : nat) (th : Concurrent.Thread) :
  Forall Concurrent.notStarted ths ->
  Concurrent.reachable WriteJSON (Concurrent.init clients0 ths) s ->
  Concurrent.broadcasting tid s = true ->
  Concurrent.threads s !! tid' = Some th -> Concurrent.isUpdate th ->
  Concurrent.step WriteJSON tid' s = None.
Proof.
  intros Hths Hreach Hb Hth Hup.
  destruct (reachable_lockInv WriteJSON clients0 ths s Hths Hreach) as [Hr Hw].
  unfold Concurrent.broadcasting in Hb.
  destruct (Concurrent.threads s !! tid) as [b |] eqn:Hb'; [| discriminate].
  assert (Hread : Concurrent.holdsRead b = true)
    by (destruct b as [? ? | ? ? | ? [| | | |]]; try discriminate; reflexivity).
  pose proof (count_pos Concurrent.holdsRead _ _ _ Hb' Hread) as Hpos.
  unfold Concurrent.step. rewrite Hth.
  destruct th as [c pc | c pc | m pc]; [| | contradiction];
    destruct pc; simpl; try reflexivity;
    try (unfold Concurrent.canLock;
         destruct (Nat.eqb_spec (Concurrent.readers (Concurrent.mu s)) 0);
           [lia | now rewrite andb_false_r]);
    exfalso;
    pose proof (count_pos Concurrent.holdsWrite _ _ _ Hth eq_refl);
    destruct (Concurrent.writer (Concurrent.mu s)); lia.
Qed.

(** *** A broadcast running alone does what [BroadcastNotification] does *)

Section Solo.

Variable WriteJSON : Conn -> WSMessage -> error.
Variable message : WSMessage.

Lemma broadcastLoop_cons_ok (c : Conn) (rest : list Conn) (cl : gset Conn) :
  WriteJSON c message = None ->
  broadcastLoop WriteJSON message (c :: rest) cl
  = (fst (broadcastLoop WriteJSON message rest cl),
     EvWrite c message None :: snd (broadcastLoop WriteJSON message rest cl)).
Proof.
  intros Hok. simpl. rewrite Hok.
  now destruct (broadcastLoop WriteJSON message rest cl).
Qed.

Lemma broadcastLoop_cons_fail (c : Conn) (err : string) (rest : list Conn)
  (cl : gset Conn) :
  WriteJSON c message = Some err ->
  broadcastLoop WriteJSON message (c :: rest) cl
  = (fst (broadcastLoop WriteJSON message rest (cl ∖ {[c]})),
     EvWrite c message (Some err)
       :: EvLog (String.append "Error broadcasting to client: " err)
       :: EvClose c
       :: snd (broadcastLoop WriteJSON message rest (cl ∖ {[c]}))).
Proof.
  intros Hfail. simpl. rewrite Hfail.
  now destruct (broadcastLoop WriteJSON message rest (cl ∖ {[c]})).
Qed.

Lemma stepN_S (tid k : nat) (s s1 : Concurrent.State) :
  Concurrent.step WriteJSON tid s = Some s1 ->
  Concurrent.stepN WriteJSON tid (S k) s = Concurrent.stepN WriteJSON tid k s1.
Proof. intros Hs. simpl. now rewrite Hs. Qed.

Lemma stepN_add (tid a b : nat) (s s1 : Concurrent.State) :
  Concurrent.stepN WriteJSON tid a s = Some s1 ->
  Concurrent.stepN WriteJSON tid (a + b) s = Concurrent.stepN WriteJSON tid b s1.
Proof.
  revert s. induction a as [|a IH]; intros s Ha; simpl in *.
  - now injection Ha as ->.
  - destruct (Concurrent.step WriteJSON tid s) as [s2 |]; [| discriminate].
    now apply IH.
Qed.

(** From inside [range], with the entries [todo] still to come, the
    thread gets through the loop on its own and leaves the registry and
    the trace that the loop of [BroadcastNotification] computes. *)
Lemma solo_range (tid : nat) (todo : list Conn) (s : Concurrent.State) :
  Concurrent.threads s !! tid
  = Some (Concurrent.BroadcastT message (Concurrent.BRange todo)) ->
  NoDup todo -> (forall c, c ∈ todo -> c ∈ Concurrent.clients s) ->
  exists k s',
    Concurrent.stepN WriteJSON tid k s = Some s'
    /\ Concurrent.clients s'
       = fst (broadcastLoop WriteJSON message todo (Concurrent.clients s))
    /\ Concurrent.trace s'
       = Concurrent.trace s
         ++ snd (broadcastLoop WriteJSON message todo (Concurrent.clients s))
    /\ Concurrent.mu s' = Concurrent.mu s
    /\ Concurrent.threads s'
       = <[tid := Concurrent.BroadcastT message (Concurrent.BRange [])]>
           (Concurrent.threads s).
Proof.
  revert s. induction todo as [|c todo IH]; intros s Hth Hnd Hin.
  - exists 0%nat, s. simpl. rewrite app_nil_r.
    repeat split. symmetry. now apply list_insert_id.
  - apply NoDup_cons in Hnd as [Hc Hnd].
    assert (Hcin : c ∈ Concurrent.clients s) by (apply Hin; now left).
    pose proof (lookup_lt_Some _ _ _ Hth) as Hlt.
    destruct (WriteJSON c message) as [err |] eqn:Hw.
    + set (s1 := Concurrent.setThread tid
                   (Concurrent.BroadcastT message (Concurrent.BFailed c err todo))
                   (Concurrent.emit [EvWrite c message (Some err)] s)).
      set (s2 := Concurrent.setThread tid
                   (Concurrent.BroadcastT message (Concurrent.BRange todo))
                   (Concurrent.setClients (Concurrent.clients s1 ∖ {[c]})
                      (Concurrent.emit
                         [EvLog (String.append "Error broadcasting to client: " err);
                          EvClose c] s1))).
      assert (H1 : Concurrent.step WriteJSON tid s = Some s1).
      { unfold Concurrent.step. rewrite Hth. simpl.
        rewrite bool_decide_eq_true_2 by exact Hcin. now rewrite Hw. }
      assert (H2 : Concurrent.step WriteJSON tid s1 = Some s2).
      { unfold Concurrent.step. simpl.
        now rewrite list_lookup_insert_eq by exact Hlt. }
      destruct (IH s2) as (k & s' & Hk & Hcl & Htr & Hmu & Hths).
      * simpl. apply list_lookup_insert_eq. now rewrite length_insert.
      * exact Hnd.
      * intros d Hd. simpl. apply elem_of_difference. split.
        -- apply Hin. now right.
        -- intros ->%elem_of_singleton. contradiction.
      * exists (S (S k)), s'.
        rewrite (stepN_S tid (S k) s s1 H1), (stepN_S tid k s1 s2 H2).
        rewrite (broadcastLoop_cons_fail c err todo _ Hw). simpl in *.
        split; [exact Hk | split; [exact Hcl | split; [| split; [exact Hmu |]]]].
        -- rewrite Htr. now rewrite <- !app_assoc.
        -- rewrite Hths. now rewrite !list_insert_insert_eq.
    + set (s1 := Concurrent.setThread tid
                   (Concurrent.BroadcastT message (Concurrent.BRange todo))
                   (Concurrent.emit [EvWrite c message None] s)).
      assert (H1 : Concurrent.step WriteJSON tid s = Some s1).
      { unfold Concurrent.step. rewrite Hth. simpl.
        rewrite bool_decide_eq_true_2 by exact Hcin. now rewrite Hw. }
      destruct (IH s1) as (k & s' & Hk & Hcl & Htr & Hmu & Hths).
      * simpl. now apply list_lookup_insert_eq.
      * exact Hnd.
      * intros d Hd. simpl. apply Hin. now right.
      * exists (S k), s'. rewrite (stepN_S tid k s s1 H1).
        rewrite (broadcastLoop_cons_ok c todo _ Hw). simpl in *.
        split; [exact Hk | split; [exact Hcl | split; [| split; [exact Hmu |]]]].
        -- rewrite Htr. now rewrite <- !app_assoc.
        -- rewrite Hths. now rewrite !list_insert_insert_eq.
Qed.

End Solo.

(** A single broadcast, from its call to its return, takes and releases
    the read lock and has the result of [BroadcastNotification] run over
    the entries of the map. *)
Lemma solo_broadcast (WriteJSON : Conn -> WSMessage -> error)
  (notification : Notification) (clients0 : gset Conn) :
  let frame := notificationFrame notification in
  let result :=
    BroadcastNotification WriteJSON (elements clients0) notification clients0 in
  exists k,
    Concurrent.stepN WriteJSON 0 k
      (Concurrent.init clients0 [Concurrent.BroadcastT frame Concurrent.BStart])
    = Some (Concurrent.mkState (fst result) (Concurrent.mkMutex false 0)
              [Concurrent.BroadcastT frame Concurrent.BDone] (snd result)).
Proof.
  intros frame result.
  set (s2 := Concurrent.mkState clients0 (Concurrent.mkMutex false 1)
               [Concurrent.BroadcastT frame (Concurrent.BRange (elements clients0))]
               []).
  destruct (solo_range WriteJSON frame 0%nat (elements clients0) s2)
    as (k & s' & Hk & Hcl & Htr & Hmu & Hths).
  - reflexivity.
  - apply NoDup_elements.
  - intros c Hc. simpl. now apply elem_of_elements.
  - exists (2 + (k + 1))%nat.
    change (Concurrent.stepN WriteJSON 0 (2 + (k + 1))
              (Concurrent.init clients0
                 [Concurrent.BroadcastT frame Concurrent.BStart]))
      with (Concurrent.stepN WriteJSON 0 (k + 1) s2).
    rewrite (stepN_add WriteJSON 0 k 1 s2 s' Hk).
    destruct s' as [cl m ths tr]. simpl in Hcl, Htr, Hmu, Hths. subst.
    reflexivity.
Qed.

(** C7. Two broadcasts run together over a registry with one connection
    whose writes fail. Both take the read lock; while the second is
    inside its loop the first deletes the connection, so the registry
    changes under a broadcast in progress, and the connection is then
    closed and deleted a second time by the second broadcast. *)
Theorem concurrent_broadcasts_change_registry :
  let WriteJSON := fun (_ : Conn) (_ : WSMessage) => Some "broken pipe" in
  let frame := notificationFrame
                 (mkNotification "7" "Build done" "Target X compiled"
                    (mkTime 2024 2 29 9 5 7 0) false) in
  let s0 := Concurrent.init {[1%nat]}
              [Concurrent.BroadcastT frame Concurrent.BStart;
               Concurrent.BroadcastT frame Concurrent.BStart] in
  let states := Concurrent.runs WriteJSON [0; 1; 0; 1; 0; 1; 0; 1; 0; 1]%nat s0 in
  map (fun s => (elements (Concurrent.clients s),
                 Concurrent.readers (Concurrent.mu s),
                 Concurrent.broadcasting 0 s, Concurrent.broadcasting 1 s))
      states
  = [ ([1%nat], 0%nat, false, false);
      ([1%nat], 1%nat, true, false);
      ([1%nat], 2%nat, true, true);
      ([1%nat], 2%nat, true, true);
      ([1%nat], 2%nat, true, true);
      ([1%nat], 2%nat, true, true);
      ([1%nat], 2%nat, true, true);
      ([], 2%nat, true, true);
      ([], 2%nat, true, true);
      ([], 1%nat, false, true);
      ([], 0%nat, false, false) ]
  /\ option_map (fun s => closes 1%nat (Concurrent.trace s)) (last states)
     = Some 2%nat.
Proof. vm_compute. split; reflexivity. Qed.

(** * Further properties of the code *)

(** ** The store and the service *)

Lemma generateID_nonempty (now1 now2 : Time) : generateID now1 now2 <> "".
Proof.
  rewrite generateID_shape.
  destruct (Format now1 "20060102150405"); simpl; discriminate.
Qed.

(** X1. Creating a notification and then marking the returned
    identifier read is a round trip for the unread listing: the call
    succeeds, it hits the record just created even if older records
    carry the same identifier, and the unread listing is again what it
    was before the creation; the full listing has gained the record,
    read. *)
Theorem create_then_mark_read_round_trip
  (now1 now2 now3 : Time) (title message : string)
  (r : InMemoryNotificationRepository) :
  title <> "" -> message <> "" ->
  exists n r1 r2,
    CreateNotification now1 now2 now3 title message r = (r1, (Some n, None))
    /\ MarkNotificationAsRead (ID n) r1 = (r2, None)
    /\ GetUnreadNotifications r2 = GetUnreadNotifications r
    /\ GetAll r2 = setRead n :: GetAll r.
Proof.
  intros Ht Hm. unfold CreateNotification.
  apply String.eqb_neq in Ht, Hm. rewrite Ht, Hm. simpl.
  eexists _, _, _. split; [reflexivity |].
  unfold MarkNotificationAsRead. simpl.
  pose proof (generateID_nonempty now1 now2) as Hne.
  apply String.eqb_neq in Hne. rewrite Hne.
  unfold InMemory.MarkAsRead. simpl. rewrite String.eqb_refl.
  split; [reflexivity | split; reflexivity].
Qed.

Lemma create_then_mark_read_round_trip_witness :
  let t := mkTime 2024 2 29 9 5 7 0 in
  let r := InMemory.NewInMemoryNotificationRepository t t in
  exists n r1 r2,
    CreateNotification t t t "Build done" "Target X compiled" r = (r1, (Some n, None))
    /\ MarkNotificationAsRead (ID n) r1 = (r2, None)
    /\ GetUnreadNotifications r2 = GetUnreadNotifications r
    /\ GetAll r2 = setRead n :: GetAll r.
Proof.
  intros t r.
  apply (create_then_mark_read_round_trip t t t "Build done" "Target X compiled" r);
    discriminate.
Defined.

(** X2. [MarkAsRead] is idempotent: a second call with the same
    identifier returns the same result and leaves the store exactly as
    the first call left it, whether the identifier was found or not. *)
Theorem MarkAsRead_idempotent (id : string) (r : InMemoryNotificationRepository) :
  MarkAsRead id (fst (MarkAsRead id r)) = MarkAsRead id r.
Proof.
  destruct r as [ns]. simpl. unfold InMemory.MarkAsRead. simpl.
  destruct (markLoop_cases id ns)
    as [[Hall Hrun] | (pre & x & post & -> & Hpre & Hx & Hrun)]; rewrite Hrun; simpl.
  - now rewrite Hrun.
  - now rewrite (markLoop_first id pre post (setRead x) Hpre Hx).
Qed.

Lemma markLoop_skip (id : string) (pre l : list Notification) :
  Forall (fun n => ID n <> id) pre ->
  InMemory.markLoop id (pre ++ l)
  = (pre ++ fst (InMemory.markLoop id l), snd (InMemory.markLoop id l)).
Proof.
  induction 1 as [|n pre Hn _ IH]; simpl.
  - now destruct (InMemory.markLoop id l).
  - apply String.eqb_neq in Hn. now rewrite Hn, IH.
Qed.

Lemma markLoop_length (id : string) (ns : list Notification) :
  length (fst (InMemory.markLoop id ns)) = length ns.
Proof. symmetry. exact (Forall2_length _ _ _ (markLoop_evolves id ns)). Qed.

Lemma Exists_same_ID_setRead (y x : Notification) (pre post : list Notification) :
  Exists (fun n => ID n = ID y) (pre ++ x :: post) ->
  Exists (fun n => ID n = ID y) (pre ++ setRead x :: post).
Proof.
  rewrite !Exists_app, !Exists_cons. simpl. tauto.
Qed.

Lemma applyMark_shadowed (id : string) (y : Notification)
  (back : list Notification) (r : InMemoryNotificationRepository) :
  shadowed y back r -> shadowed y back (fst (MarkAsRead id r)).
Proof.
  intros (front & back' & E & Hex & Hlen). destruct r as [ns]. simpl in *. subst ns.
  unfold InMemory.MarkAsRead. simpl.
  destruct (markLoop_cases id front)
    as [[Hall _] | (pre & x & post & -> & Hpre & Hx & _)].
  - rewrite (markLoop_skip id front _ Hall). simpl.
    assert (Hy : String.eqb (ID y) id = false).
    { apply String.eqb_neq. intros Ey.
      apply Exists_exists in Hex as (n & Hin & Hn).
      rewrite Forall_forall in Hall. apply (Hall n Hin). congruence. }
    rewrite Hy. destruct (InMemory.markLoop id back') as [back'' e] eqn:Hb. simpl.
    exists front, back''. split; [reflexivity | split; [exact Hex |]].
    rewrite <- Hlen. change back'' with (fst (back'', e)). rewrite <- Hb.
    apply markLoop_length.
  - rewrite <- app_assoc. simpl.
    rewrite (markLoop_first id pre (post ++ y :: back') x Hpre Hx). simpl.
    exists (pre ++ setRead x :: post), back'.
    split; [now rewrite <- app_assoc | split; [| exact Hlen]].
    now apply Exists_same_ID_setRead.
Qed.

Lemma applyOp_shadowed (op : Op) (y : Notification)
  (back : list Notification) (r : InMemoryNotificationRepository) :
  isClear op = false -> shadowed y back r -> shadowed y back (applyOp op r).
Proof.
  destruct op as [n | id | | | | now1 now2 now3 title message | id |];
    simpl; intros Hc Hs; try discriminate; try exact Hs.
  - destruct Hs as (front & back' & E & Hex & Hlen).
    exists (n :: front), back'. simpl. rewrite E.
    split; [reflexivity | split; [now apply Exists_cons_tl | exact Hlen]].
  - now apply applyMark_shadowed.
  - unfold CreateNotification.
    destruct (String.eqb title "" || String.eqb message "")%bool; simpl;
      [exact Hs |].
    destruct Hs as (front & back' & E & Hex & Hlen).
    eexists (_ :: front), back'. rewrite E.
    split; [reflexivity | split; [now apply Exists_cons_tl | exact Hlen]].
  - unfold MarkNotificationAsRead. destruct (String.eqb id ""); simpl;
      [exact Hs | now apply applyMark_shadowed].
Qed.

(** X3. A record that lies behind another record with the same
    identifier can never be marked read: along any sequence of store and
    service operations without a clear it keeps its place counted from
    the end and all its fields, the read flag included, and a record
    with its identifier stays in front of it. If it is unread it is in
    every later unread listing. *)
Theorem shadowed_duplicate_never_marked
  (ops : list Op) (front back : list Notification) (y : Notification) :
  existsb isClear ops = false -> Exists (fun n => ID n = ID y) front ->
  (exists front' back',
      notifications (runOps ops (mkRepo (front ++ y :: back))) = front' ++ y :: back'
      /\ Exists (fun n => ID n = ID y) front'
      /\ length back' = length back)
  /\ (Read y = false ->
      y ∈ GetUnreadNotifications (runOps ops (mkRepo (front ++ y :: back)))).
Proof.
  intros Hc Hex.
  assert (Hs : shadowed y back (runOps ops (mkRepo (front ++ y :: back)))).
  { assert (H0 : shadowed y back (mkRepo (front ++ y :: back)))
      by (exists front, back; auto).
    revert H0 Hc. generalize (mkRepo (front ++ y :: back)).
    induction ops as [|op ops IH]; intros r H0 Hc; [exact H0 |].
    simpl in Hc. apply orb_false_iff in Hc as [Hop Hops].
    simpl. apply IH; [now apply applyOp_shadowed | exact Hops]. }
  split; [exact Hs |].
  intros Hy. destruct Hs as (front' & back' & E & _ & _).
  simpl. unfold InMemory.GetUnread. rewrite E.
  apply list_elem_of_In, List.filter_In. split.
  - apply in_or_app. right. now left.
  - now rewrite Hy.
Qed.

Lemma shadowed_duplicate_never_marked_witness :
  let t := mkTime 2024 2 29 9 5 7 0 in
  let x := mkNotification "7" "first" "a" t false in
  let y := mkNotification "7" "second" "b" t false in
  let ops := [OpMarkRead "7"; OpCreate t t t "c" "d"; OpMarkRead "7";
              OpStoreMarkRead "7"] in
  y ∈ GetUnreadNotifications (runOps ops (mkRepo ([x] ++ y :: []))).
Proof.
  intros t x y ops.
  apply (shadowed_duplicate_never_marked ops [x] [] y).
  - reflexivity.
  - apply Exists_cons_hd. reflexivity.
  - reflexivity.
Defined.

(** X4. A call of [MarkAsRead] never changes the number of stored
    records, takes at most one record out of the unread listing and
    keeps the others in their order; when it fails the store is
    untouched. *)
Theorem MarkAsRead_unread_listing (id : string) (r : InMemoryNotificationRepository) :
  let r' := fst (MarkAsRead id r) in
  length (GetAll r') = length (GetAll r)
  /\ GetUnread r' `sublist_of` GetUnread r
  /\ (length (GetUnread r) <= S (length (GetUnread r')))%nat
  /\ (snd (MarkAsRead id r) <> None -> r' = r).
Proof.
  destruct r as [ns]. simpl. unfold InMemory.MarkAsRead, InMemory.GetUnread,
    InMemory.GetAll. simpl.
  destruct (markLoop_cases id ns)
    as [[Hall Hrun] | (pre & x & post & -> & Hpre & Hx & Hrun)]; rewrite Hrun; simpl.
  - repeat split; [reflexivity | lia].
  - split; [now rewrite !length_app |].
    rewrite !List.filter_app. simpl.
    destruct (Read x); simpl.
    + repeat split; [reflexivity | lia | congruence].
    + repeat split.
      * apply sublist_app; [reflexivity |]. now apply sublist_cons.
      * rewrite !length_app. simpl. lia.
      * congruence.
Qed.

(** X5. On calendar readings, two generated identifiers are equal
    exactly when the first clock readings of the two calls fall in the
    same calendar second; the second reading and the fraction of the
    second play no part. Every generated identifier has eighteen
    characters. *)
Theorem generateID_eq_iff (a1 a2 b1 b2 : Time) :
  calendarTime a1 -> calendarTime b1 ->
  (generateID a1 a2 = generateID b1 b2 <-> sameSecond a1 b1)
  /\ String.length (generateID a1 a2) = 18%nat.
Proof.
  intros Ha Hb. split; [split |].
  - now apply generateID_inj.
  - apply generateID_sameSecond.
  - now apply generateID_length.
Qed.

Lemma generateID_eq_iff_witness :
  let a := mkTime 2024 2 29 9 5 7 100000000 in
  let b := mkTime 2024 2 29 9 5 7 900000000 in
  generateID a a = generateID b b.
Proof.
  intros a b.
  apply (generateID_eq_iff a a b b).
  - unfold calendarTime; simpl; lia.
  - unfold calendarTime; simpl; lia.
  - unfold sameSecond; simpl; lia.
Defined.

(** ** The HTTP handlers *)

(** X6. [POST /api/notifications] with a bound request whose fields are
    non-empty answers 201 with the created record; the record is the new
    head of the store, the frames written are writes of that record's
    frame on registered connections only, every registered connection
    whose write succeeds receives it exactly once, and the registry
    keeps exactly those connections. *)
Theorem handler_create_broadcasts
  (WriteJSON : Conn -> WSMessage -> error) (now1 now2 now3 : Time)
  (order : list Conn) (req : CreateNotificationRequest)
  (r : InMemoryNotificationRepository) (clients : gset Conn) :
  order ≡ₚ elements clients -> reqTitle req <> "" -> reqMessage req <> "" ->
  exists n r' clients' evs,
    NotificationHandler.CreateNotification WriteJSON (inl req) now1 now2 now3
      order r clients
    = (r', clients', evs, mkResponse 201 (JSONNotification n))
    /\ Title n = reqTitle req /\ Message n = reqMessage req /\ Read n = false
    /\ GetAll r' = n :: GetAll r
    /\ (forall c m, (c, m) ∈ writes evs -> c ∈ clients /\ m = notificationFrame n)
    /\ (forall c, c ∈ clients -> WriteJSON c (notificationFrame n) = None ->
                  received c evs = [notificationFrame n])
    /\ (forall c, c ∈ clients' <->
                  c ∈ clients /\ WriteJSON c (notificationFrame n) = None).
Proof.
  intros Hperm Ht Hm.
  assert (Hin : forall c, c ∈ order <-> c ∈ clients).
  { intros c. rewrite Hperm. apply elem_of_elements. }
  assert (Hnd : NoDup order) by (rewrite Hperm; apply NoDup_elements).
  unfold NotificationHandler.CreateNotification, CreateNotification.
  apply String.eqb_neq in Ht, Hm. rewrite Ht, Hm. simpl.
  unfold BroadcastNotification.
  set (n := mkNotification (generateID now1 now2) (reqTitle req) (reqMessage req)
              now3 false).
  pose proof (broadcastLoop_writes WriteJSON (notificationFrame n) order clients) as Hw.
  pose proof (broadcastLoop_clients WriteJSON (notificationFrame n) order clients) as Hc.
  pose proof (broadcastLoop_received_once WriteJSON (notificationFrame n) order clients)
    as Hr.
  destruct (broadcastLoop WriteJSON (notificationFrame n) order clients)
    as [clients' evs]. simpl in *.
  exists n, (mkRepo (n :: notifications r)), clients', evs.
  do 5 (split; [reflexivity |]).
  split; [| split].
  - intros c m Hcm. rewrite Hw in Hcm.
    apply list_elem_of_fmap in Hcm as (d & E & Hd).
    injection E as -> ->. split; [now apply Hin | reflexivity].
  - intros c Hcl Hok. apply Hr; [exact Hnd | now apply Hin | exact Hok].
  - intros c. rewrite Hc, Hin. tauto.
Qed.

Lemma handler_create_broadcasts_witness :
  let WriteJSON := fun (c : Conn) (_ : WSMessage) =>
                     if Nat.eqb c 1 then Some "broken pipe" else None in
  let t := mkTime 2024 2 29 9 5 7 0 in
  let r := InMemory.NewInMemoryNotificationRepository t t in
  let clients : gset Conn := {[1%nat; 2%nat]} in
  exists n r' clients' evs,
    NotificationHandler.CreateNotification WriteJSON
      (inl (mkRequest "Build done" "Target X compiled")) t t t
      (elements clients) r clients
    = (r', clients', evs, mkResponse 201 (JSONNotification n))
    /\ received 2%nat evs = [notificationFrame n]
    /\ 1%nat ∉ clients'.
Proof.
  intros WriteJSON t r clients.
  destruct (handler_create_broadcasts WriteJSON t t t (elements clients)
              (mkRequest "Build done" "Target X compiled") r clients
              (reflexivity _))
    as (n & r' & clients' & evs & E & _ & _ & _ & _ & _ & Hrecv & Hreg);
    [discriminate | discriminate |].
  exists n, r', clients', evs. split; [exact E | split].
  - apply Hrecv; [set_solver | reflexivity].
  - intros Hin. apply Hreg in Hin as [_ Hok]. discriminate Hok.
Defined.

(** X7. [POST /api/notifications] answers 201 only for a bound request
    with both fields non-empty. In every other case the answer is 400,
    the store and the registry are as before and nothing is written to
    any connection. *)
Theorem handler_create_rejects
  (WriteJSON : Conn -> WSMessage -> error) (now1 now2 now3 : Time)
  (order : list Conn) (bound : CreateNotificationRequest + string)
  (r : InMemoryNotificationRepository) (clients : gset Conn) :
  let result := NotificationHandler.CreateNotification WriteJSON bound
                  now1 now2 now3 order r clients in
  let accepted := exists req, bound = inl req /\ reqTitle req <> ""
                              /\ reqMessage req <> "" in
  (Status (snd result) = 201%nat <-> accepted)
  /\ (~ accepted ->
      exists err, result = (r, clients, [], mkResponse 400 (JSONError err))).
Proof.
  intros result accepted. subst result accepted.
  unfold NotificationHandler.CreateNotification, CreateNotification.
  destruct bound as [req | err]; simpl.
  - destruct (String.eqb_spec (reqTitle req) "") as [Et | Nt]; simpl.
    + split; [split; [discriminate | intros (q & [= <-] & Hq & _); contradiction] |].
      intros _. eexists. reflexivity.
    + destruct (String.eqb_spec (reqMessage req) "") as [Em | Nm]; simpl.
      * split; [split; [discriminate | intros (q & [= <-] & _ & Hq); contradiction] |].
        intros _. eexists. reflexivity.
      * destruct (BroadcastNotification WriteJSON order _ clients) as [cl evs]. simpl.
        split; [split; [intros _; exists req; auto | reflexivity] |].
        intros Hn. exfalso. apply Hn. exists req. auto.
  - split; [split; [discriminate | intros (q & [=] & _)] |].
    intros _. eexists. reflexivity.
Qed.

Lemma handler_create_rejects_witness :
  let WriteJSON := fun (_ : Conn) (_ : WSMessage) => @None string in
  let t := mkTime 2024 2 29 9 5 7 0 in
  let r := InMemory.NewInMemoryNotificationRepository t t in
  let clients : gset Conn := {[1%nat; 2%nat]} in
  exists err,
    NotificationHandler.CreateNotification WriteJSON
      (inl (mkRequest "" "x")) t t t (elements clients) r clients
    = (r, clients, [], mkResponse 400 (JSONError err)).
Proof.
  intros WriteJSON t r clients.
  apply (handler_create_rejects WriteJSON t t t (elements clients)
           (inl (mkRequest "" "x")) r clients).
  intros (q & [= <-] & Hq & _). apply Hq. reflexivity.
Defined.

(** X8. [PUT /api/notifications/:id/read] answers 200 exactly when the
    identifier is non-empty and some stored record carries it; every
    failure, the empty identifier included, is answered 404 and leaves
    the store as it was. *)
Theorem handler_mark_as_read (id : string) (r : InMemoryNotificationRepository) :
  let result := NotificationHandler.MarkAsRead id r in
  let known := id <> "" /\ Exists (fun n => ID n = id) (notifications r) in
  (known -> snd result = mkResponse 200 (JSONSuccess true))
  /\ (~ known ->
      fst result = r /\ exists err, snd result = mkResponse 404 (JSONError err)).
Proof.
  intros result known. subst result known.
  unfold NotificationHandler.MarkAsRead, MarkNotificationAsRead.
  destruct r as [ns]. simpl.
  destruct (String.eqb_spec id "") as [-> | Hid]; simpl.
  - split; [intros [Hne _]; contradiction |].
    intros _. split; [reflexivity | eexists; reflexivity].
  - unfold InMemory.MarkAsRead. simpl.
    destruct (markLoop_cases id ns)
      as [[Hall Hrun] | (pre & x & post & -> & Hpre & Hx & Hrun)]; rewrite Hrun; simpl.
    + split.
      * intros [_ Hex]. exfalso. apply Exists_exists in Hex as (n & Hin & Hn).
        rewrite Forall_forall in Hall. exact (Hall n Hin Hn).
      * intros _. split; [reflexivity | eexists; reflexivity].
    + split; [reflexivity |].
      intros Hn. exfalso. apply Hn. split; [exact Hid |].
      apply Exists_app. right. now apply Exists_cons_hd.
Qed.

Lemma handler_mark_as_read_witness :
  let t := mkTime 2024 2 29 9 5 7 0 in
  let r := InMemory.NewInMemoryNotificationRepository t t in
  snd (NotificationHandler.MarkAsRead "2" r) = mkResponse 200 (JSONSuccess true)
  /\ fst (NotificationHandler.MarkAsRead "9" r) = r.
Proof.
  intros t r. split.
  - apply (handler_mark_as_read "2" r). split; [discriminate |].
    apply Exists_cons_tl, Exists_cons_hd. reflexivity.
  - apply (handler_mark_as_read "9" r). intros [_ Hex].
    apply Exists_exists in Hex as (n & Hin & Hn).
    repeat (apply elem_of_cons in Hin as [-> | Hin]; [discriminate Hn |]).
    inversion Hin.
Defined.


(** ** The read loop of a connection *)

Section ReadLoop.

Variable WriteJSON : Conn -> WSMessage -> error.

Lemma serveFrame_own (R : Type) (H : NotificationRepository R)
  (conn : Conn) (msg : WSMessage) (repo : R) :
  Forall (ownEvent conn) (snd (serveFrame WriteJSON conn msg repo)).
Proof.
  unfold serveFrame, HandleMessage.
  destruct (String.eqb (Type_ msg) "get_notifications").
  - simpl. destruct (WriteJSON conn _); repeat constructor.
  - destruct (String.eqb (Type_ msg) "mark_read").
    + destruct (negb (String.eqb (NotificationID msg) "")).
      * destruct (MarkNotificationAsRead (NotificationID msg) repo) as [repo' [e |]];
          simpl; repeat constructor.
      * simpl. repeat constructor.
    + destruct (String.eqb (Type_ msg) "clear_all").
      * destruct (ClearAllNotifications repo) as [repo' [e |]];
          simpl; repeat constructor.
      * simpl. repeat constructor.
Qed.

Lemma readLoop_own (R : Type) (H : NotificationRepository R)
  (conn : Conn) (frames : list WSMessage) (repo : R) :
  Forall (ownEvent conn) (snd (readLoop WriteJSON conn frames repo)).
Proof.
  revert repo. induction frames as [|msg frames IH]; intros repo; simpl;
    [constructor |].
  pose proof (serveFrame_own R H conn msg repo) as H1.
  destruct (serveFrame WriteJSON conn msg repo) as [repo1 evs1].
  specialize (IH repo1).
  destruct (readLoop WriteJSON conn frames repo1) as [repo2 evs2]. simpl in *.
  now apply Forall_app.
Qed.

Lemma ownEvent_writes (conn : Conn) (evs : list Event) :
  Forall (ownEvent conn) evs ->
  Forall (fun w => fst w = conn) (writes evs) /\ closes conn evs = 0%nat.
Proof.
  induction 1 as [|ev evs Hev _ [IH1 IH2]]; [split; [constructor | reflexivity] |].
  destruct ev as [c m res | c | line]; simpl in *; try contradiction.
  - split; [now constructor | exact IH2].
  - split; assumption.
Qed.

Lemma writes_app (evs1 evs2 : list Event) :
  writes (evs1 ++ evs2) = writes evs1 ++ writes evs2.
Proof. unfold writes. apply flat_map_app. Qed.

Lemma closes_app (conn : Conn) (evs1 evs2 : list Event) :
  closes conn (evs1 ++ evs2) = (closes conn evs1 + closes conn evs2)%nat.
Proof. unfold closes. now rewrite List.filter_app, length_app. Qed.

Lemma serveFrame_store (conn : Conn) (msg : WSMessage)
  (r : InMemoryNotificationRepository) :
  fst (serveFrame WriteJSON conn msg r) = runOps (frameOps msg) r.
Proof.
  unfold serveFrame, HandleMessage, frameOps.
  destruct (String.eqb (Type_ msg) "get_notifications"); [reflexivity |].
  destruct (String.eqb (Type_ msg) "mark_read").
  - destruct (String.eqb (NotificationID msg) "") eqn:Hid; simpl; [reflexivity |].
    unfold runOps. simpl.
    now destruct (MarkNotificationAsRead (NotificationID msg) r) as [r' [e |]].
  - destruct (String.eqb (Type_ msg) "clear_all"); reflexivity.
Qed.

Lemma runOps_app (ops1 ops2 : list Op) (r : InMemoryNotificationRepository) :
  runOps (ops1 ++ ops2) r = runOps ops2 (runOps ops1 r).
Proof. unfold runOps. apply fold_left_app. Qed.

Lemma readLoop_store (conn : Conn) (frames : list WSMessage)
  (r : InMemoryNotificationRepository) :
  fst (readLoop WriteJSON conn frames r) = runOps (flat_map frameOps frames) r.
Proof.
  revert r. induction frames as [|msg frames IH]; intros r; simpl; [reflexivity |].
  pose proof (serveFrame_store conn msg r) as H1.
  destruct (serveFrame WriteJSON conn msg r) as [r1 evs1].
  specialize (IH r1).
  destruct (readLoop WriteJSON conn frames r1) as [r2 evs2]. simpl in *.
  now rewrite runOps_app, <- H1, <- IH.
Qed.

Lemma applyOp_frame_length (op : Op) (r : InMemoryNotificationRepository) :
  match op with OpInsert _ | OpCreate _ _ _ _ _ => False | _ => True end ->
  (length (notifications (applyOp op r)) <= length (notifications r))%nat.
Proof.
  destruct op as [n | id | | | | now1 now2 now3 title message | id |]; simpl;
    intros Hop; try contradiction; try lia.
  - unfold InMemory.MarkAsRead.
    pose proof (markLoop_length id (notifications r)).
    destruct (InMemory.markLoop id (notifications r)). simpl in *. lia.
  - unfold MarkNotificationAsRead. destruct (String.eqb id ""); simpl; [lia |].
    unfold InMemory.MarkAsRead.
    pose proof (markLoop_length id (notifications r)).
    destruct (InMemory.markLoop id (notifications r)). simpl in *. lia.
Qed.

Lemma serveFrame_writes (R : Type) (H : NotificationRepository R)
  (conn : Conn) (msg : WSMessage) (repo : R) :
  length (writes (snd (serveFrame WriteJSON conn msg repo)))
  = if isGet msg then 1%nat else 0%nat.
Proof.
  unfold serveFrame, HandleMessage, isGet.
  destruct (String.eqb (Type_ msg) "get_notifications").
  - simpl. now destruct (WriteJSON conn _).
  - destruct (String.eqb (Type_ msg) "mark_read").
    + destruct (negb (String.eqb (NotificationID msg) "")).
      * now destruct (MarkNotificationAsRead (NotificationID msg) repo) as [repo' [e |]].
      * reflexivity.
    + destruct (String.eqb (Type_ msg) "clear_all").
      * now destruct (ClearAllNotifications repo) as [repo' [e |]].
      * reflexivity.
Qed.

End ReadLoop.

(** X9. Whatever frames a connection sends, its read loop changes the
    store only through the service's mark-read and clear-all: the store
    after the loop is the store after the corresponding sequence of
    service operations, so no frame ever adds a record to it. *)
Theorem readLoop_store_effect
  (WriteJSON : Conn -> WSMessage -> error) (conn : Conn)
  (frames : list WSMessage) (r : InMemoryNotificationRepository) :
  let r' := fst (readLoop WriteJSON conn frames r) in
  r' = runOps (flat_map frameOps frames) r
  /\ (length (GetAll r') <= length (GetAll r))%nat.
Proof.
  simpl. split; [apply readLoop_store |].
  rewrite readLoop_store. unfold InMemory.GetAll.
  assert (Hops : Forall (fun op => match op with
                                   | OpInsert _ | OpCreate _ _ _ _ _ => False
                                   | _ => True
                                   end) (flat_map frameOps frames)).
  { induction frames as [|msg frames IH]; simpl; [constructor |].
    apply Forall_app. split; [| exact IH]. unfold frameOps.
    destruct (String.eqb (Type_ msg) "get_notifications"); [repeat constructor |].
    destruct (String.eqb (Type_ msg) "mark_read").
    - destruct (String.eqb (NotificationID msg) ""); repeat constructor.
    - destruct (String.eqb (Type_ msg) "clear_all"); repeat constructor. }
  revert r. induction Hops as [|op ops Hop _ IH]; intros r; [reflexivity |].
  simpl. etransitivity; [apply IH |]. now apply applyOp_frame_length.
Qed.

(** X10. The read loop answers the [get_notifications] frames and
    nothing else: the number of frames it writes is the number of
    [get_notifications] frames it read, every write is on the connection
    the loop serves, and the loop closes no connection. This holds for
    every repository implementation and whatever the writes return. *)
Theorem readLoop_replies
  (WriteJSON : Conn -> WSMessage -> error)
  (R : Type) (H : NotificationRepository R)
  (conn : Conn) (frames : list WSMessage) (repo : R) :
  let evs := snd (readLoop WriteJSON conn frames repo) in
  length (writes evs) = length (List.filter isGet frames)
  /\ Forall (fun w => fst w = conn) (writes evs)
  /\ (forall c, closes c evs = 0%nat).
Proof.
  simpl. split; [| split].
  - revert repo. induction frames as [|msg frames IH]; intros repo; simpl;
      [reflexivity |].
    pose proof (serveFrame_writes WriteJSON R H conn msg repo) as H1.
    destruct (serveFrame WriteJSON conn msg repo) as [repo1 evs1].
    specialize (IH repo1).
    destruct (readLoop WriteJSON conn frames repo1) as [repo2 evs2]. simpl in *.
    rewrite writes_app, length_app, H1, IH.
    now destruct (isGet msg).
  - apply ownEvent_writes, readLoop_own.
  - intros c. pose proof (readLoop_own WriteJSON R H conn frames repo) as Hown.
    induction Hown as [|ev evs Hev _ IH]; [reflexivity |].
    destruct ev; simpl in *; try contradiction; exact IH.
Qed.

(** X11. [HandleWebSocket] registers the connection for as long as its
    loop runs and no longer: when it returns, the connection is out of
    the registry and every other registration is as before (so for a
    connection that was not registered the registry is unchanged); the
    handler wrote on no other connection and closed its own connection
    once, as its last act. *)
Theorem HandleWebSocket_unregisters
  (WriteJSON : Conn -> WSMessage -> error)
  (R : Type) (H : NotificationRepository R)
  (conn : Conn) (frames : list WSMessage) (readErr : string)
  (repo : R) (clients : gset Conn) :
  let result := HandleWebSocket WriteJSON conn frames readErr repo clients in
  let clients' := snd (fst result) in
  let evs := snd result in
  (forall c, c ∈ clients' <-> c ∈ clients /\ c <> conn)
  /\ (conn ∉ clients -> clients' = clients)
  /\ Forall (fun w => fst w = conn) (writes evs)
  /\ closes conn evs = 1%nat
  /\ last evs = Some (EvClose conn).
Proof.
  unfold HandleWebSocket.
  pose proof (readLoop_own WriteJSON R H conn frames repo) as Hown.
  destruct (readLoop WriteJSON conn frames repo) as [repo' evs].
  cbn [fst snd] in *.
  apply ownEvent_writes in Hown as [Hw Hc].
  unfold RemoveClient, AddClient.
  assert (Hreg : forall c, c ∈ ({[conn]} ∪ clients) ∖ {[conn]}
                           <-> c ∈ clients /\ c <> conn).
  { intros c. rewrite elem_of_difference, elem_of_union, elem_of_singleton. tauto. }
  split; [exact Hreg | split; [| split; [| split]]].
  - intros Hnot. apply set_eq. intros c. rewrite Hreg.
    split; [tauto |]. intros Hc'. split; [exact Hc' | now intros ->].
  - change (writes (EvLog "WebSocket connection established" :: ?l))
      with (writes l).
    rewrite writes_app. apply Forall_app. split; [exact Hw | repeat constructor].
  - change (closes conn (EvLog "WebSocket connection established" :: ?l))
      with (closes conn l).
    rewrite closes_app, Hc. unfold closes. simpl. now rewrite Nat.eqb_refl.
  - rewrite last_cons, last_app. reflexivity.
Qed.

(** ** Broadcast and the order of the map *)

Section BroadcastMore.

Variable WriteJSON : Conn -> WSMessage -> error.
Variable message : WSMessage.

Lemma closes_fail_block (c d : Conn) (err line : string) (evs : list Event) :
  closes c (EvWrite d message (Some err) :: EvLog line :: EvClose d :: evs)
  = ((if Nat.eqb d c then 1 else 0) + closes c evs)%nat.
Proof. unfold closes. simpl. now destruct (Nat.eqb d c). Qed.

Lemma closes_ok_block (c d : Conn) (evs : list Event) :
  closes c (EvWrite d message None :: evs) = closes c evs.
Proof. reflexivity. Qed.

Lemma broadcastLoop_closes_absent (order : list Conn) (clients : gset Conn) (c : Conn) :
  (c ∉ order) \/ WriteJSON c message = None ->
  closes c (snd (broadcastLoop WriteJSON message order clients)) = 0%nat.
Proof.
  revert clients. induction order as [|d order IH]; intros clients Hc;
    [reflexivity |].
  assert (Hrest : (c ∉ order) \/ WriteJSON c message = None).
  { destruct Hc as [Hc | Hc]; [left | right; exact Hc].
    intros Hin. apply Hc. now apply elem_of_cons; right. }
  destruct (WriteJSON d message) as [err |] eqn:Hd.
  - rewrite (broadcastLoop_cons_fail WriteJSON message d err order clients Hd).
    cbn [snd]. rewrite closes_fail_block, IH by exact Hrest.
    destruct (Nat.eqb_spec d c) as [-> | Hne]; [| reflexivity].
    exfalso. destruct Hc as [Hc | Hc]; [| congruence].
    apply Hc. now apply elem_of_cons; left.
  - rewrite (broadcastLoop_cons_ok WriteJSON message d order clients Hd).
    cbn [snd]. rewrite closes_ok_block. now apply IH.
Qed.

Lemma broadcastLoop_closes_once (order : list Conn) (clients : gset Conn) (c : Conn) :
  NoDup order -> c ∈ order -> WriteJSON c message <> None ->
  closes c (snd (broadcastLoop WriteJSON message order clients)) = 1%nat.
Proof.
  intros Hnd. revert clients. induction Hnd as [|d order Hd Hnd IH];
    intros clients Hin Hfail; [inversion Hin |].
  apply elem_of_cons in Hin.
  destruct (WriteJSON d message) as [err |] eqn:Hw.
  - rewrite (broadcastLoop_cons_fail WriteJSON message d err order clients Hw).
    cbn [snd]. rewrite closes_fail_block.
    destruct (Nat.eqb_spec d c) as [-> | Hne].
    + now rewrite broadcastLoop_closes_absent by (left; exact Hd).
    + destruct Hin as [-> | Hin]; [congruence |]. now rewrite IH.
  - rewrite (broadcastLoop_cons_ok WriteJSON message d order clients Hw).
    cbn [snd]. rewrite closes_ok_block.
    destruct Hin as [-> | Hin]; [congruence |]. now apply IH.
Qed.

End BroadcastMore.

(** X12. The outcome of a broadcast does not depend on the order in
    which the map yields its entries: for any two orders the registry
    afterwards is the same, every connection receives the same frames,
    and every connection is closed the same number of times (once if it
    is registered and its write fails, never otherwise). *)
Theorem Broadcast_order_irrelevant
  (WriteJSON : Conn -> WSMessage -> error) (order1 order2 : list Conn)
  (notification : Notification) (clients : gset Conn) :
  order1 ≡ₚ elements clients -> order2 ≡ₚ elements clients ->
  let result1 := BroadcastNotification WriteJSON order1 notification clients in
  let result2 := BroadcastNotification WriteJSON order2 notification clients in
  fst result1 = fst result2
  /\ (forall c, received c (snd result1) = received c (snd result2))
  /\ (forall c, closes c (snd result1) = closes c (snd result2)
                /\ (closes c (snd result1) = 1%nat <->
                    c ∈ clients
                    /\ WriteJSON c (notificationFrame notification) <> None)
                /\ (closes c (snd result1) <= 1)%nat).
Proof.
  intros H1 H2. simpl. unfold BroadcastNotification.
  set (frame := notificationFrame notification).
  assert (Hin1 : forall c, c ∈ order1 <-> c ∈ clients)
    by (intros c; rewrite H1; apply elem_of_elements).
  assert (Hin2 : forall c, c ∈ order2 <-> c ∈ clients)
    by (intros c; rewrite H2; apply elem_of_elements).
  assert (Hnd1 : NoDup order1) by (rewrite H1; apply NoDup_elements).
  assert (Hnd2 : NoDup order2) by (rewrite H2; apply NoDup_elements).
  split; [| split].
  - apply set_eq. intros c. rewrite !broadcastLoop_clients, Hin1, Hin2. tauto.
  - intros c. destruct (decide (c ∈ clients)) as [Hc | Hc].
    + destruct (WriteJSON c frame) as [err |] eqn:Hw.
      * rewrite !broadcastLoop_received_absent; [reflexivity | right | right];
          congruence.
      * rewrite !broadcastLoop_received_once; auto; [now apply Hin2 | now apply Hin1].
    + rewrite !broadcastLoop_received_absent; [reflexivity | left | left].
      * now rewrite Hin2.
      * now rewrite Hin1.
  - intros c. destruct (decide (c ∈ clients)) as [Hc | Hc].
    + destruct (WriteJSON c frame) as [err |] eqn:Hw.
      * rewrite !broadcastLoop_closes_once;
          [| exact Hnd2 | now apply Hin2 | congruence
           | exact Hnd1 | now apply Hin1 | congruence].
        split; [reflexivity | split; [| lia]].
        split; [intros _; split; [exact Hc | discriminate] | reflexivity].
      * rewrite !broadcastLoop_closes_absent; [| right; exact Hw | right; exact Hw].
        split; [reflexivity | split; [| lia]].
        split; [discriminate | intros [_ Hne]; congruence].
    + rewrite !broadcastLoop_closes_absent; [| left; now rewrite Hin2
                                             | left; now rewrite Hin1].
      split; [reflexivity | split; [| lia]].
      split; [discriminate | intros [Hc' _]; contradiction].
Qed.

Lemma Broadcast_order_irrelevant_witness :
  let WriteJSON := fun (c : Conn) (_ : WSMessage) =>
                     if Nat.eqb c 1 then Some "broken pipe" else None in
  let n := mkNotification "7" "Build done" "Target X compiled"
             (mkTime 2024 2 29 9 5 7 0) false in
  let clients : gset Conn := {[1%nat; 2%nat; 3%nat]} in
  fst (BroadcastNotification WriteJSON (elements clients) n clients)
  = fst (BroadcastNotification WriteJSON (reverse (elements clients)) n clients).
Proof.
  intros WriteJSON n clients.
  apply (Broadcast_order_irrelevant WriteJSON (elements clients)
           (reverse (elements clients)) n clients).
  - reflexivity.
  - apply reverse_Permutation.
Defined.

(** X13. A broadcast prunes the registry once: if the same frame is
    broadcast again over the registry that the first broadcast left, and
    the connections answer as before, no connection is closed or
    removed and every registered connection receives the frame. *)
Theorem Broadcast_prunes_once
  (WriteJSON : Conn -> WSMessage -> error) (order1 order2 : list Conn)
  (notification : Notification) (clients : gset Conn) :
  let clients1 := fst (BroadcastNotification WriteJSON order1 notification clients) in
  let result2 := BroadcastNotification WriteJSON order2 notification clients1 in
  order1 ≡ₚ elements clients -> order2 ≡ₚ elements clients1 ->
  fst result2 = clients1
  /\ (forall c, closes c (snd result2) = 0%nat)
  /\ (forall c, c ∈ clients1 ->
                received c (snd result2) = [notificationFrame notification]).
Proof.
  simpl. unfold BroadcastNotification.
  set (frame := notificationFrame notification).
  set (clients1 := fst (broadcastLoop WriteJSON frame order1 clients)).
  intros H1 H2.
  assert (Hin1 : forall c, c ∈ order1 <-> c ∈ clients)
    by (intros c; rewrite H1; apply elem_of_elements).
  assert (Hin2 : forall c, c ∈ order2 <-> c ∈ clients1)
    by (intros c; rewrite H2; apply elem_of_elements).
  assert (Hnd2 : NoDup order2) by (rewrite H2; apply NoDup_elements).
  assert (Hok : forall c, c ∈ clients1 -> WriteJSON c frame = None).
  { intros c Hc. apply broadcastLoop_clients in Hc as [Hc Hw].
    apply Hw. now apply Hin1. }
  split; [| split].
  - apply set_eq. intros c. rewrite broadcastLoop_clients, Hin2.
    split; [tauto |]. intros Hc. split; [exact Hc | intros _; now apply Hok].
  - intros c. apply broadcastLoop_closes_absent.
    destruct (decide (c ∈ order2)) as [Hc | Hc]; [right | now left].
    apply Hok. now apply Hin2.
  - intros c Hc. apply broadcastLoop_received_once;
      [exact Hnd2 | now apply Hin2 | now apply Hok].
Qed.

Lemma Broadcast_prunes_once_witness :
  let WriteJSON := fun (c : Conn) (_ : WSMessage) =>
                     if Nat.eqb c 1 then Some "broken pipe" else None in
  let n := mkNotification "7" "Build done" "Target X compiled"
             (mkTime 2024 2 29 9 5 7 0) false in
  let clients : gset Conn := {[1%nat; 2%nat; 3%nat]} in
  let clients1 := fst (BroadcastNotification WriteJSON (elements clients) n clients) in
  fst (BroadcastNotification WriteJSON (elements clients1) n clients1) = clients1.
Proof.
  intros WriteJSON n clients clients1.
  apply (Broadcast_prunes_once WriteJSON (elements clients) (elements clients1)
           n clients); reflexivity.
Defined.

(** ** The lock of the registry *)

Lemma count_two (f : Concurrent.Thread -> bool) (l : list Concurrent.Thread)
  (i j : nat) (x y : Concurrent.Thread) :
  i <> j -> l !! i = Some x -> l !! j = Some y -> f x = true -> f y = true ->
  (2 <= Concurrent.count f l)%nat.
Proof.
  revert i j. induction l as [|a l IH]; intros [|i] [|j] Hij Hi Hj Hx Hy;
    simpl in *; try discriminate; try congruence.
  - injection Hi as ->. pose proof (count_pos f l j y Hj Hy) as Hp.
    unfold Concurrent.count in *. simpl. rewrite Hx. simpl. lia.
  - injection Hj as ->. pose proof (count_pos f l i x Hi Hx) as Hp.
    unfold Concurrent.count in *. simpl. rewrite Hy. simpl. lia.
  - assert (Hij' : i <> j) by congruence.
    specialize (IH i j Hij' Hi Hj Hx Hy).
    unfold Concurrent.count in *. simpl. destruct (f a); simpl; lia.
Qed.

(** X14. The write lock is exclusive: in every state that threads
    running [AddClient], [RemoveClient] and [BroadcastNotification] can
    reach, while one thread is between [Lock] and [Unlock] of
    [AddClient] or [RemoveClient] no other thread is inside the critical
    section of any of the three. *)
Theorem update_lock_exclusive
  (WriteJSON : Conn -> WSMessage -> error)
  (clients0 : gset Conn) (ths : list Concurrent.Thread) (s : Concurrent.State)
  (tid tid' : nat) (th th' : Concurrent.Thread) :
  Forall Concurrent.notStarted ths ->
  Concurrent.reachable WriteJSON (Concurrent.init clients0 ths) s ->
  Concurrent.threads s !! tid = Some th -> Concurrent.holdsWrite th = true ->
  tid' <> tid -> Concurrent.threads s !! tid' = Some th' ->
  Concurrent.holdsWrite th' = false /\ Concurrent.holdsRead th' = false.
Proof.
  intros Hths Hreach Hth Hw Hne Hth'.
  destruct (reachable_lockInv WriteJSON clients0 ths s Hths Hreach) as [Hr Hinv].
  pose proof (count_pos Concurrent.holdsWrite _ _ _ Hth Hw) as Hpos.
  destruct (Concurrent.writer (Concurrent.mu s)); [| lia].
  destruct Hinv as [Hone Hzero]. split.
  - destruct (Concurrent.holdsWrite th') eqn:Hw'; [| reflexivity].
    pose proof (count_two Concurrent.holdsWrite _ _ _ _ _ Hne Hth' Hth Hw' Hw). lia.
  - destruct (Concurrent.holdsRead th') eqn:Hr'; [| reflexivity].
    pose proof (count_pos Concurrent.holdsRead _ _ _ Hth' Hr'). lia.
Qed.

Lemma update_lock_exclusive_witness :
  let WriteJSON := fun (_ : Conn) (_ : WSMessage) => @None string in
  let frame := notificationFrame
                 (mkNotification "7" "a" "b" (mkTime 2024 2 29 9 5 7 0) false) in
  let ths := [Concurrent.AddClientT 5%nat Concurrent.LStart;
              Concurrent.BroadcastT frame Concurrent.BStart] in
  Concurrent.step WriteJSON 0%nat (Concurrent.init ∅ ths)
  = Some (Concurrent.mkState ∅ (Concurrent.mkMutex true 0%nat)
            [Concurrent.AddClientT 5%nat Concurrent.LHeld;
             Concurrent.BroadcastT frame Concurrent.BStart] [])
  /\ Concurrent.holdsWrite (Concurrent.BroadcastT frame Concurrent.BStart) = false
  /\ Concurrent.holdsRead (Concurrent.BroadcastT frame Concurrent.BStart) = false.
Proof.
  intros WriteJSON frame ths.
  assert (Hstep : Concurrent.step WriteJSON 0%nat (Concurrent.init ∅ ths)
                  = Some (Concurrent.mkState ∅ (Concurrent.mkMutex true 0%nat)
                            [Concurrent.AddClientT 5%nat Concurrent.LHeld;
                             Concurrent.BroadcastT frame Concurrent.BStart] []))
    by reflexivity.
  split; [exact Hstep |].
  apply (update_lock_exclusive WriteJSON ∅ ths
           (Concurrent.mkState ∅ (Concurrent.mkMutex true 0%nat)
              [Concurrent.AddClientT 5%nat Concurrent.LHeld;
               Concurrent.BroadcastT frame Concurrent.BStart] [])
           0%nat 1%nat
           (Concurrent.AddClientT 5%nat Concurrent.LHeld)
           (Concurrent.BroadcastT frame Concurrent.BStart)).
  - repeat constructor.
  - eapply Concurrent.reach_step; [apply Concurrent.reach_init | exact Hstep].
  - reflexivity.
  - reflexivity.
  - lia.
  - reflexivity.
Defined.

Lemma updates_wait_for_broadcasts_witness :
  let WriteJSON := fun (_ : Conn) (_ : WSMessage) => @None string in
  let frame := notificationFrame
                 (mkNotification "7" "a" "b" (mkTime 2024 2 29 9 5 7 0) false) in
  let ths := [Concurrent.BroadcastT frame Concurrent.BStart;
              Concurrent.AddClientT 5%nat Concurrent.LStart] in
  Concurrent.step WriteJSON 1%nat
    (Concurrent.mkState ∅ (Concurrent.mkMutex false 1%nat)
       [Concurrent.BroadcastT frame Concurrent.BLocked;
        Concurrent.AddClientT 5%nat Concurrent.LStart] [])
  = None.
Proof.
  intros WriteJSON frame ths.
  apply (updates_wait_for_broadcasts WriteJSON ∅ ths
           (Concurrent.mkState ∅ (Concurrent.mkMutex false 1%nat)
              [Concurrent.BroadcastT frame Concurrent.BLocked;
               Concurrent.AddClientT 5%nat Concurrent.LStart] [])
           0%nat 1%nat
           (Concurrent.AddClientT 5%nat Concurrent.LStart)).
  - repeat constructor.
  - apply Concurrent.reach_step with (s := Concurrent.init ∅ ths) (tid := 0%nat);
      [apply Concurrent.reach_init | reflexivity].
  - reflexivity.
  - reflexivity.
  - exact I.
Defined.

(** ** The command-line sender *)



(** X16. Sender and server agree on what a valid request is: when the
    sender's request reaches [POST /api/notifications] as it was built
    and the answer comes back, a sender that got past its own checks
    always prints the success line and exits with 0, and the server has
    stored a record with that title and message at the head. [render] is
    the encoding of the response body. *)
Theorem sender_accepted_by_server
  (WriteJSON : Conn -> WSMessage -> error) (render : Body -> string)
  (now1 now2 now3 : Time) (order : list Conn)
  (r : InMemoryNotificationRepository) (clients : gset Conn)
  (home : string + string) (openConfig : string -> Send.OpenResult)
  (hostFlag : option string) (title message : string) (config : Send.Config) :
  Send.loadConfig home openConfig = inl config -> title <> "" -> message <> "" ->
  let serve (req : Send.CreateNotificationRequest) :=
    NotificationHandler.CreateNotification WriteJSON
      (inl (mkRequest (Send.Title req) (Send.Message req)))
      now1 now2 now3 order r clients in
  let post (url : string) (req : Send.CreateNotificationRequest) :=
    Send.Responded (Status (snd (serve req))) (inl (render (body (snd (serve req))))) in
  let e := Send.main home openConfig hostFlag title message post in
  Send.code e = 0%nat
  /\ Send.stdout e = ["Notification sent successfully"]
  /\ exists n rest,
      GetAll (fst (fst (fst (serve (Send.mkRequest title message))))) = n :: rest
      /\ Title n = title /\ Message n = message /\ rest = GetAll r.
Proof.
  intros Hcfg Ht Hm serve post e. subst e post serve.
  unfold Send.main. rewrite Hcfg.
  apply String.eqb_neq in Ht, Hm. rewrite Ht, Hm. simpl.
  unfold NotificationHandler.CreateNotification, CreateNotification. simpl.
  rewrite Ht, Hm. simpl.
  destruct (BroadcastNotification WriteJSON order _ clients) as [cl evs]. simpl.
  split; [reflexivity | split; [reflexivity |]].
  eexists _, _. repeat split.
Qed.

Lemma sender_accepted_by_server_witness :
  let WriteJSON := fun (_ : Conn) (_ : WSMessage) => @None string in
  let render := fun (_ : Body) => "{}" in
  let t := mkTime 2024 2 29 9 5 7 0 in
  let r := InMemory.NewInMemoryNotificationRepository t t in
  let serve (req : Send.CreateNotificationRequest) :=
    NotificationHandler.CreateNotification WriteJSON
      (inl (mkRequest (Send.Title req) (Send.Message req))) t t t [] r ∅ in
  let post (url : string) (req : Send.CreateNotificationRequest) :=
    Send.Responded (Status (snd (serve req))) (inl (render (body (snd (serve req))))) in
  Send.code (Send.main (inl "/home/me") (fun _ => Send.NotExist) None "Build done"
               "Target X compiled" post) = 0%nat.
Proof.
  intros WriteJSON render t r serve post.
  apply (sender_accepted_by_server WriteJSON render t t t [] r ∅ (inl "/home/me")
           (fun _ => Send.NotExist) None "Build done" "Target X compiled"
           (Send.mkConfig "http://localhost:8080")).
  - reflexivity.
  - discriminate.
  - discriminate.
Defined.

(** ** Frames on the wire and the page *)


(** X18. Page and server agree over the wire. The frame the page sends
    on opening is answered by one frame, and on receiving it the page
    holds exactly the server's unread listing, also when that listing is
    empty and the [notifications] key is therefore absent. A broadcast
    frame puts the new notification at the head of the page's list. The
    frame the page sends for a click does to the store what
    [MarkNotificationAsRead] of that identifier does. *)
Theorem page_and_server_agree
  (WriteJSON : Conn -> WSMessage -> error)
  (R : Type) (H : NotificationRepository R)
  (conn : Conn) (repo : R) (prev : list (option Notification)) :
  (exists reply,
      writes (snd (serveFrame WriteJSON conn (unmarshal App.getFrame) repo))
      = [(conn, reply)]
      /\ App.onmessage prev (marshal reply) = map Some (GetUnreadNotifications repo))
  /\ (forall n, App.onmessage prev (marshal (notificationFrame n)) = Some n :: prev)
  /\ (forall id,
        fst (serveFrame WriteJSON conn (unmarshal (App.markReadFrame id)) repo)
        = fst (MarkNotificationAsRead id repo)).
Proof.
  split; [| split].
  - exists (listFrame (GetUnreadNotifications repo)). split.
    + unfold serveFrame, HandleMessage. simpl.
      now destruct (WriteJSON conn _).
    + unfold App.onmessage, marshal. simpl.
      now destruct (GetUnreadNotifications repo).
  - reflexivity.
  - intros id. unfold serveFrame, HandleMessage, MarkNotificationAsRead. simpl.
    destruct (String.eqb id ""); simpl; [reflexivity |].
    now destruct (MarkAsRead id repo) as [repo' [e |]].
Qed.

(** ** Relative times on the page *)

Lemma formatRelativeTime_cases (now timestamp : Z) :
  let d := (now - timestamp) / 1000 in
  App.formatRelativeTime now timestamp
  = if d <? 60 then String.append (App.toString d) "秒前"
    else if d <? 3600 then String.append (App.toString (d / 60)) "分前"
    else if d <? 86400 then String.append (App.toString (d / 3600)) "時間前"
    else String.append (App.toString (d / 86400)) "日前".
Proof. reflexivity. Qed.

(** X19. [formatRelativeTime] rounds the age down to whole units and
    picks the largest unit that fits: the label counts seconds below one
    minute (a timestamp in the future gives a negative count), 1 to 59
    minutes below one hour, 1 to 23 hours below one day and at least one
    day from then on, and the age lies between the count shown and the
    next one. *)
Theorem formatRelativeTime_units (now timestamp : Z) :
  Z.abs (now - timestamp) <= 2 ^ 53 ->
  let d := (now - timestamp) / 1000 in
  1000 * d <= now - timestamp < 1000 * (d + 1)
  /\ exists q unit suffix,
      App.formatRelativeTime now timestamp = String.append (App.toString q) suffix
      /\ (unit, suffix) ∈ [(1, "秒前"); (60, "分前"); (3600, "時間前"); (86400, "日前")]
      /\ unit * q <= d < unit * (q + 1)
      /\ (unit = 1 -> q < 60)
      /\ (unit = 60 -> 1 <= q <= 59)
      /\ (unit = 3600 -> 1 <= q <= 23)
      /\ (unit = 86400 -> 1 <= q).
Proof.
  intros _ d. split; [subst d; divmod |].
  rewrite formatRelativeTime_cases. fold d.
  destruct (Z.ltb_spec d 60) as [H1 | H1].
  - exists d, 1, "秒前". split; [reflexivity |].
    split; [apply list_elem_of_In; simpl; auto |].
    repeat split; lia.
  - destruct (Z.ltb_spec d 3600) as [H2 | H2].
    + exists (d / 60), 60, "分前". split; [reflexivity |].
      split; [apply list_elem_of_In; simpl; auto |].
      repeat split; try lia; divmod.
    + destruct (Z.ltb_spec d 86400) as [H3 | H3].
      * exists (d / 3600), 3600, "時間前". split; [reflexivity |].
        split; [apply list_elem_of_In; simpl; auto |].
        repeat split; try lia; divmod.
      * exists (d / 86400), 86400, "日前". split; [reflexivity |].
        split; [apply list_elem_of_In; simpl; auto 6 |].
        repeat split; try lia; divmod.
Qed.

Lemma formatRelativeTime_units_witness :
  exists q unit suffix,
    App.formatRelativeTime 1709197632000 1709197507000
    = String.append (App.toString q) suffix
    /\ (unit, suffix) ∈ [(1, "秒前"); (60, "分前"); (3600, "時間前"); (86400, "日前")]
    /\ unit * q <= (1709197632000 - 1709197507000) / 1000 < unit * (q + 1)
    /\ (unit = 1 -> q < 60)
    /\ (unit = 60 -> 1 <= q <= 59)
    /\ (unit = 3600 -> 1 <= q <= 23)
    /\ (unit = 86400 -> 1 <= q).
Proof.
  apply (formatRelativeTime_units 1709197632000 1709197507000).
  vm_compute. discriminate.
Defined.

Example formatRelativeTime_two_minutes :
  App.formatRelativeTime 1709197632000 1709197507000 = "2分前".
Proof. reflexivity. Qed.

Example formatRelativeTime_future :
  App.formatRelativeTime 1709197507000 1709197507500 = "-1秒前".
Proof. reflexivity. Qed.
